(** * A shallow embedding of [enigma.py]

    The module emulates a three-rotor Enigma machine: a plugboard, three
    rotors that advance like an odometer, and a fixed reflector.  The
    embedding follows the Python source function by function:

    - a Python [str] is a list of Unicode code points ([list N]);
    - a [dict] is a [gmap], a [set] a [gset];
    - a function that can raise returns a [result]: either [Ok v] or
      [Raise e] where [e] records the exception class and its message;
    - the rotor offsets that the main loop mutates are threaded through the
      loop as an explicit state. *)

From Stdlib Require Import ZArith Ascii String DecimalString.
From stdpp Require Import gmap list strings.

Open Scope Z_scope.

(** ** Python values *)

(** A string literal of the source, as code points.  Only ASCII literals
    are used. *)
Definition lit (s : string) : list N :=
  N_of_ascii <$> list_ascii_of_string s.

Definition chr (a : ascii) : N := N_of_ascii a.

(** [len(s)] *)
Definition len (s : list N) : Z := Z.of_nat (length s).

(** [f"{n}"] for an [int]. *)
Definition format_int (n : Z) : list N :=
  lit (NilZero.string_of_int (Z.to_int n)).

(** Exceptions: the class that is raised and the message it carries. *)
Inductive exn_class : Set :=
  | Exception | ValueError | TypeError | IndexError | KeyError.

Record exn : Set := mk_exn { exn_type : exn_class; exn_msg : list N }.

Inductive result (A : Type) : Type :=
  | Ok (a : A)
  | Raise (e : exn).
Arguments Ok {A} a.
Arguments Raise {A} e.

#[global] Instance result_ret : MRet result := fun _ a => Ok a.
#[global] Instance result_bind : MBind result := fun _ _ f m =>
  match m with
  | Ok a => f a
  | Raise e => Raise e
  end.

Definition is_ok {A} (r : result A) : bool :=
  match r with Ok _ => true | Raise _ => false end.

(** [c in s] for a one-character string [c] and a string [s]. *)
Definition str_in (c : N) (s : list N) : bool := bool_decide (c ∈ s).

(** [s.index(c)]: the lowest index of [c]; [ValueError] when absent. *)
Definition str_index (s : list N) (c : N) : result nat :=
  match list_find (λ x, x = c) s with
  | Some (i, _) => Ok i
  | None => Raise (mk_exn ValueError (lit "substring not found"))
  end.

(** [s[i]]: a negative index counts from the end; [IndexError] outside
    [-len(s) .. len(s)-1]. *)
Definition str_getitem (s : list N) (i : Z) : result N :=
  let i' := if i <? 0 then i + len s else i in
  if i' <? 0 then Raise (mk_exn IndexError (lit "string index out of range"))
  else match s !! Z.to_nat i' with
       | Some c => Ok c
       | None => Raise (mk_exn IndexError (lit "string index out of range"))
       end.

(** [d[k]] on a dict; [KeyError(k)] when absent. *)
Definition dict_getitem (d : gmap N N) (k : N) : result N :=
  match d !! k with
  | Some v => Ok v
  | None => Raise (mk_exn KeyError [k])
  end.

(** The case mapping behind [str.upper()]: every code point whose
    upper-case form is not the code point itself, with that form, as
    CPython 3.11 has it (Unicode 14.0.0, 1525 code points).  Most forms are
    one code point; U+00DF (sharp s) becomes the two letters "SS", U+FB01
    (the fi ligature) becomes "FI", U+0131 (dotless i) becomes "I". *)
Definition upper_table : list (N * list N) :=
  [(0x61, [0x41]); (0x62, [0x42]); (0x63, [0x43]); (0x64, [0x44]);
    (0x65, [0x45]); (0x66, [0x46]); (0x67, [0x47]); (0x68, [0x48]);
    (0x69, [0x49]); (0x6A, [0x4A]); (0x6B, [0x4B]); (0x6C, [0x4C]);
    (0x6D, [0x4D]); (0x6E, [0x4E]); (0x6F, [0x4F]); (0x70, [0x50]);
    (0x71, [0x51]); (0x72, [0x52]); (0x73, [0x53]); (0x74, [0x54]);
    (0x75, [0x55]); (0x76, [0x56]); (0x77, [0x57]); (0x78, [0x58]);
    (0x79, [0x59]); (0x7A, [0x5A]); (0xB5, [0x39C]); (0xDF, [0x53; 0x53]);
    (0xE0, [0xC0]); (0xE1, [0xC1]); (0xE2, [0xC2]); (0xE3, [0xC3]);
    (0xE4, [0xC4]); (0xE5, [0xC5]); (0xE6, [0xC6]); (0xE7, [0xC7]);
    (0xE8, [0xC8]); (0xE9, [0xC9]); (0xEA, [0xCA]); (0xEB, [0xCB]);
    (0xEC, [0xCC]); (0xED, [0xCD]); (0xEE, [0xCE]); (0xEF, [0xCF]);
    (0xF0, [0xD0]); (0xF1, [0xD1]); (0xF2, [0xD2]); (0xF3, [0xD3]);
    (0xF4, [0xD4]); (0xF5, [0xD5]); (0xF6, [0xD6]); (0xF8, [0xD8]);
    (0xF9, [0xD9]); (0xFA, [0xDA]); (0xFB, [0xDB]); (0xFC, [0xDC]);
    (0xFD, [0xDD]); (0xFE, [0xDE]); (0xFF, [0x178]); (0x101, [0x100]);
    (0x103, [0x102]); (0x105, [0x104]); (0x107, [0x106]); (0x109, [0x108]);
    (0x10B, [0x10A]); (0x10D, [0x10C]); (0x10F, [0x10E]); (0x111, [0x110]);
    (0x113, [0x112]); (0x115, [0x114]); (0x117, [0x116]); (0x119, [0x118]);
    (0x11B, [0x11A]); (0x11D, [0x11C]); (0x11F, [0x11E]); (0x121, [0x120]);
    (0x123, [0x122]); (0x125, [0x124]); (0x127, [0x126]); (0x129, [0x128]);
    (0x12B, [0x12A]); (0x12D, [0x12C]); (0x12F, [0x12E]); (0x131, [0x49]);
    (0x133, [0x132]); (0x135, [0x134]); (0x137, [0x136]); (0x13A, [0x139]);
    (0x13C, [0x13B]); (0x13E, [0x13D]); (0x140, [0x13F]); (0x142, [0x141]);
    (0x144, [0x143]); (0x146, [0x145]); (0x148, [0x147]);
    (0x149, [0x2BC; 0x4E]); (0x14B, [0x14A]); (0x14D, [0x14C]);
    (0x14F, [0x14E]); (0x151, [0x150]); (0x153, [0x152]); (0x155, [0x154]);
    (0x157, [0x156]); (0x159, [0x158]); (0x15B, [0x15A]); (0x15D, [0x15C]);
    (0x15F, [0x15E]); (0x161, [0x160]); (0x163, [0x162]); (0x165, [0x164]);
    (0x167, [0x166]); (0x169, [0x168]); (0x16B, [0x16A]); (0x16D, [0x16C]);
    (0x16F, [0x16E]); (0x171, [0x170]); (0x173, [0x172]); (0x175, [0x174]);
    (0x177, [0x176]); (0x17A, [0x179]); (0x17C, [0x17B]); (0x17E, [0x17D]);
    (0x17F, [0x53]); (0x180, [0x243]); (0x183, [0x182]); (0x185, [0x184]);
    (0x188, [0x187]); (0x18C, [0x18B]); (0x192, [0x191]); (0x195, [0x1F6]);
    (0x199, [0x198]); (0x19A, [0x23D]); (0x19E, [0x220]); (0x1A1, [0x1A0]);
    (0x1A3, [0x1A2]); (0x1A5, [0x1A4]); (0x1A8, [0x1A7]); (0x1AD, [0x1AC]);
    (0x1B0, [0x1AF]); (0x1B4, [0x1B3]); (0x1B6, [0x1B5]); (0x1B9, [0x1B8]);
    (0x1BD, [0x1BC]); (0x1BF, [0x1F7]); (0x1C5, [0x1C4]); (0x1C6, [0x1C4]);
    (0x1C8, [0x1C7]); (0x1C9, [0x1C7]); (0x1CB, [0x1CA]); (0x1CC, [0x1CA]);
    (0x1CE, [0x1CD]); (0x1D0, [0x1CF]); (0x1D2, [0x1D1]); (0x1D4, [0x1D3]);
    (0x1D6, [0x1D5]); (0x1D8, [0x1D7]); (0x1DA, [0x1D9]); (0x1DC, [0x1DB]);
    (0x1DD, [0x18E]); (0x1DF, [0x1DE]); (0x1E1, [0x1E0]); (0x1E3, [0x1E2]);
    (0x1E5, [0x1E4]); (0x1E7, [0x1E6]); (0x1E9, [0x1E8]); (0x1EB, [0x1EA]);
    (0x1ED, [0x1EC]); (0x1EF, [0x1EE]); (0x1F0, [0x4A; 0x30C]);
    (0x1F2, [0x1F1]); (0x1F3, [0x1F1]); (0x1F5, [0x1F4]); (0x1F9, [0x1F8]);
    (0x1FB, [0x1FA]); (0x1FD, [0x1FC]); (0x1FF, [0x1FE]); (0x201, [0x200]);
    (0x203, [0x202]); (0x205, [0x204]); (0x207, [0x206]); (0x209, [0x208]);
    (0x20B, [0x20A]); (0x20D, [0x20C]); (0x20F, [0x20E]); (0x211, [0x210]);
    (0x213, [0x212]); (0x215, [0x214]); (0x217, [0x216]); (0x219, [0x218]);
    (0x21B, [0x21A]); (0x21D, [0x21C]); (0x21F, [0x21E]); (0x223, [0x222]);
    (0x225, [0x224]); (0x227, [0x226]); (0x229, [0x228]); (0x22B, [0x22A]);
    (0x22D, [0x22C]); (0x22F, [0x22E]); (0x231, [0x230]); (0x233, [0x232]);
    (0x23C, [0x23B]); (0x23F, [0x2C7E]); (0x240, [0x2C7F]); (0x242, [0x241]);
    (0x247, [0x246]); (0x249, [0x248]); (0x24B, [0x24A]); (0x24D, [0x24C]);
    (0x24F, [0x24E]); (0x250, [0x2C6F]); (0x251, [0x2C6D]); (0x252, [0x2C70]);
    (0x253, [0x181]); (0x254, [0x186]); (0x256, [0x189]); (0x257, [0x18A]);
    (0x259, [0x18F]); (0x25B, [0x190]); (0x25C, [0xA7AB]); (0x260, [0x193]);
    (0x261, [0xA7AC]); (0x263, [0x194]); (0x265, [0xA78D]); (0x266, [0xA7AA]);
    (0x268, [0x197]); (0x269, [0x196]); (0x26A, [0xA7AE]); (0x26B, [0x2C62]);
    (0x26C, [0xA7AD]); (0x26F, [0x19C]); (0x271, [0x2C6E]); (0x272, [0x19D]);
    (0x275, [0x19F]); (0x27D, [0x2C64]); (0x280, [0x1A6]); (0x282, [0xA7C5]);
    (0x283, [0x1A9]); (0x287, [0xA7B1]); (0x288, [0x1AE]); (0x289, [0x244]);
    (0x28A, [0x1B1]); (0x28B, [0x1B2]); (0x28C, [0x245]); (0x292, [0x1B7]);
    (0x29D, [0xA7B2]); (0x29E, [0xA7B0]); (0x345, [0x399]); (0x371, [0x370]);
    (0x373, [0x372]); (0x377, [0x376]); (0x37B, [0x3FD]); (0x37C, [0x3FE]);
    (0x37D, [0x3FF]); (0x390, [0x399; 0x308; 0x301]); (0x3AC, [0x386]);
    (0x3AD, [0x388]); (0x3AE, [0x389]); (0x3AF, [0x38A]);
    (0x3B0, [0x3A5; 0x308; 0x301]); (0x3B1, [0x391]); (0x3B2, [0x392]);
    (0x3B3, [0x393]); (0x3B4, [0x394]); (0x3B5, [0x395]); (0x3B6, [0x396]);
    (0x3B7, [0x397]); (0x3B8, [0x398]); (0x3B9, [0x399]); (0x3BA, [0x39A]);
    (0x3BB, [0x39B]); (0x3BC, [0x39C]); (0x3BD, [0x39D]); (0x3BE, [0x39E]);
    (0x3BF, [0x39F]); (0x3C0, [0x3A0]); (0x3C1, [0x3A1]); (0x3C2, [0x3A3]);
    (0x3C3, [0x3A3]); (0x3C4, [0x3A4]); (0x3C5, [0x3A5]); (0x3C6, [0x3A6]);
    (0x3C7, [0x3A7]); (0x3C8, [0x3A8]); (0x3C9, [0x3A9]); (0x3CA, [0x3AA]);
    (0x3CB, [0x3AB]); (0x3CC, [0x38C]); (0x3CD, [0x38E]); (0x3CE, [0x38F]);
    (0x3D0, [0x392]); (0x3D1, [0x398]); (0x3D5, [0x3A6]); (0x3D6, [0x3A0]);
    (0x3D7, [0x3CF]); (0x3D9, [0x3D8]); (0x3DB, [0x3DA]); (0x3DD, [0x3DC]);
    (0x3DF, [0x3DE]); (0x3E1, [0x3E0]); (0x3E3, [0x3E2]); (0x3E5, [0x3E4]);
    (0x3E7, [0x3E6]); (0x3E9, [0x3E8]); (0x3EB, [0x3EA]); (0x3ED, [0x3EC]);
    (0x3EF, [0x3EE]); (0x3F0, [0x39A]); (0x3F1, [0x3A1]); (0x3F2, [0x3F9]);
    (0x3F3, [0x37F]); (0x3F5, [0x395]); (0x3F8, [0x3F7]); (0x3FB, [0x3FA]);
    (0x430, [0x410]); (0x431, [0x411]); (0x432, [0x412]); (0x433, [0x413]);
    (0x434, [0x414]); (0x435, [0x415]); (0x436, [0x416]); (0x437, [0x417]);
    (0x438, [0x418]); (0x439, [0x419]); (0x43A, [0x41A]); (0x43B, [0x41B]);
    (0x43C, [0x41C]); (0x43D, [0x41D]); (0x43E, [0x41E]); (0x43F, [0x41F]);
    (0x440, [0x420]); (0x441, [0x421]); (0x442, [0x422]); (0x443, [0x423]);
    (0x444, [0x424]); (0x445, [0x425]); (0x446, [0x426]); (0x447, [0x427]);
    (0x448, [0x428]); (0x449, [0x429]); (0x44A, [0x42A]); (0x44B, [0x42B]);
    (0x44C, [0x42C]); (0x44D, [0x42D]); (0x44E, [0x42E]); (0x44F, [0x42F]);
    (0x450, [0x400]); (0x451, [0x401]); (0x452, [0x402]); (0x453, [0x403]);
    (0x454, [0x404]); (0x455, [0x405]); (0x456, [0x406]); (0x457, [0x407]);
    (0x458, [0x408]); (0x459, [0x409]); (0x45A, [0x40A]); (0x45B, [0x40B]);
    (0x45C, [0x40C]); (0x45D, [0x40D]); (0x45E, [0x40E]); (0x45F, [0x40F]);
    (0x461, [0x460]); (0x463, [0x462]); (0x465, [0x464]); (0x467, [0x466]);
    (0x469, [0x468]); (0x46B, [0x46A]); (0x46D, [0x46C]); (0x46F, [0x46E]);
    (0x471, [0x470]); (0x473, [0x472]); (0x475, [0x474]); (0x477, [0x476]);
    (0x479, [0x478]); (0x47B, [0x47A]); (0x47D, [0x47C]); (0x47F, [0x47E]);
    (0x481, [0x480]); (0x48B, [0x48A]); (0x48D, [0x48C]); (0x48F, [0x48E]);
    (0x491, [0x490]); (0x493, [0x492]); (0x495, [0x494]); (0x497, [0x496]);
    (0x499, [0x498]); (0x49B, [0x49A]); (0x49D, [0x49C]); (0x49F, [0x49E]);
    (0x4A1, [0x4A0]); (0x4A3, [0x4A2]); (0x4A5, [0x4A4]); (0x4A7, [0x4A6]);
    (0x4A9, [0x4A8]); (0x4AB, [0x4AA]); (0x4AD, [0x4AC]); (0x4AF, [0x4AE]);
    (0x4B1, [0x4B0]); (0x4B3, [0x4B2]); (0x4B5, [0x4B4]); (0x4B7, [0x4B6]);
    (0x4B9, [0x4B8]); (0x4BB, [0x4BA]); (0x4BD, [0x4BC]); (0x4BF, [0x4BE]);
    (0x4C2, [0x4C1]); (0x4C4, [0x4C3]); (0x4C6, [0x4C5]); (0x4C8, [0x4C7]);
    (0x4CA, [0x4C9]); (0x4CC, [0x4CB]); (0x4CE, [0x4CD]); (0x4CF, [0x4C0]);
    (0x4D1, [0x4D0]); (0x4D3, [0x4D2]); (0x4D5, [0x4D4]); (0x4D7, [0x4D6]);
    (0x4D9, [0x4D8]); (0x4DB, [0x4DA]); (0x4DD, [0x4DC]); (0x4DF, [0x4DE]);
    (0x4E1, [0x4E0]); (0x4E3, [0x4E2]); (0x4E5, [0x4E4]); (0x4E7, [0x4E6]);
    (0x4E9, [0x4E8]); (0x4EB, [0x4EA]); (0x4ED, [0x4EC]); (0x4EF, [0x4EE]);
    (0x4F1, [0x4F0]); (0x4F3, [0x4F2]); (0x4F5, [0x4F4]); (0x4F7, [0x4F6]);
    (0x4F9, [0x4F8]); (0x4FB, [0x4FA]); (0x4FD, [0x4FC]); (0x4FF, [0x4FE]);
    (0x501, [0x500]); (0x503, [0x502]); (0x505, [0x504]); (0x507, [0x506]);
    (0x509, [0x508]); (0x50B, [0x50A]); (0x50D, [0x50C]); (0x50F, [0x50E]);
    (0x511, [0x510]); (0x513, [0x512]); (0x515, [0x514]); (0x517, [0x516]);
    (0x519, [0x518]); (0x51B, [0x51A]); (0x51D, [0x51C]); (0x51F, [0x51E]);
    (0x521, [0x520]); (0x523, [0x522]); (0x525, [0x524]); (0x527, [0x526]);
    (0x529, [0x528]); (0x52B, [0x52A]); (0x52D, [0x52C]); (0x52F, [0x52E]);
    (0x561, [0x531]); (0x562, [0x532]); (0x563, [0x533]); (0x564, [0x534]);
    (0x565, [0x535]); (0x566, [0x536]); (0x567, [0x537]); (0x568, [0x538]);
    (0x569, [0x539]); (0x56A, [0x53A]); (0x56B, [0x53B]); (0x56C, [0x53C]);
    (0x56D, [0x53D]); (0x56E, [0x53E]); (0x56F, [0x53F]); (0x570, [0x540]);
    (0x571, [0x541]); (0x572, [0x542]); (0x573, [0x543]); (0x574, [0x544]);
    (0x575, [0x545]); (0x576, [0x546]); (0x577, [0x547]); (0x578, [0x548]);
    (0x579, [0x549]); (0x57A, [0x54A]); (0x57B, [0x54B]); (0x57C, [0x54C]);
    (0x57D, [0x54D]); (0x57E, [0x54E]); (0x57F, [0x54F]); (0x580, [0x550]);
    (0x581, [0x551]); (0x582, [0x552]); (0x583, [0x553]); (0x584, [0x554]);
    (0x585, [0x555]); (0x586, [0x556]); (0x587, [0x535; 0x552]);
    (0x10D0, [0x1C90]); (0x10D1, [0x1C91]); (0x10D2, [0x1C92]);
    (0x10D3, [0x1C93]); (0x10D4, [0x1C94]); (0x10D5, [0x1C95]);
    (0x10D6, [0x1C96]); (0x10D7, [0x1C97]); (0x10D8, [0x1C98]);
    (0x10D9, [0x1C99]); (0x10DA, [0x1C9A]); (0x10DB, [0x1C9B]);
    (0x10DC, [0x1C9C]); (0x10DD, [0x1C9D]); (0x10DE, [0x1C9E]);
    (0x10DF, [0x1C9F]); (0x10E0, [0x1CA0]); (0x10E1, [0x1CA1]);
    (0x10E2, [0x1CA2]); (0x10E3, [0x1CA3]); (0x10E4, [0x1CA4]);
    (0x10E5, [0x1CA5]); (0x10E6, [0x1CA6]); (0x10E7, [0x1CA7]);
    (0x10E8, [0x1CA8]); (0x10E9, [0x1CA9]); (0x10EA, [0x1CAA]);
    (0x10EB, [0x1CAB]); (0x10EC, [0x1CAC]); (0x10ED, [0x1CAD]);
    (0x10EE, [0x1CAE]); (0x10EF, [0x1CAF]); (0x10F0, [0x1CB0]);
    (0x10F1, [0x1CB1]); (0x10F2, [0x1CB2]); (0x10F3, [0x1CB3]);
    (0x10F4, [0x1CB4]); (0x10F5, [0x1CB5]); (0x10F6, [0x1CB6]);
    (0x10F7, [0x1CB7]); (0x10F8, [0x1CB8]); (0x10F9, [0x1CB9]);
    (0x10FA, [0x1CBA]); (0x10FD, [0x1CBD]); (0x10FE, [0x1CBE]);
    (0x10FF, [0x1CBF]); (0x13F8, [0x13F0]); (0x13F9, [0x13F1]);
    (0x13FA, [0x13F2]); (0x13FB, [0x13F3]); (0x13FC, [0x13F4]);
    (0x13FD, [0x13F5]); (0x1C80, [0x412]); (0x1C81, [0x414]);
    (0x1C82, [0x41E]); (0x1C83, [0x421]); (0x1C84, [0x422]);
    (0x1C85, [0x422]); (0x1C86, [0x42A]); (0x1C87, [0x462]);
    (0x1C88, [0xA64A]); (0x1D79, [0xA77D]); (0x1D7D, [0x2C63]);
    (0x1D8E, [0xA7C6]); (0x1E01, [0x1E00]); (0x1E03, [0x1E02]);
    (0x1E05, [0x1E04]); (0x1E07, [0x1E06]); (0x1E09, [0x1E08]);
    (0x1E0B, [0x1E0A]); (0x1E0D, [0x1E0C]); (0x1E0F, [0x1E0E]);
    (0x1E11, [0x1E10]); (0x1E13, [0x1E12]); (0x1E15, [0x1E14]);
    (0x1E17, [0x1E16]); (0x1E19, [0x1E18]); (0x1E1B, [0x1E1A]);
    (0x1E1D, [0x1E1C]); (0x1E1F, [0x1E1E]); (0x1E21, [0x1E20]);
    (0x1E23, [0x1E22]); (0x1E25, [0x1E24]); (0x1E27, [0x1E26]);
    (0x1E29, [0x1E28]); (0x1E2B, [0x1E2A]); (0x1E2D, [0x1E2C]);
    (0x1E2F, [0x1E2E]); (0x1E31, [0x1E30]); (0x1E33, [0x1E32]);
    (0x1E35, [0x1E34]); (0x1E37, [0x1E36]); (0x1E39, [0x1E38]);
    (0x1E3B, [0x1E3A]); (0x1E3D, [0x1E3C]); (0x1E3F, [0x1E3E]);
    (0x1E41, [0x1E40]); (0x1E43, [0x1E42]); (0x1E45, [0x1E44]);
    (0x1E47, [0x1E46]); (0x1E49, [0x1E48]); (0x1E4B, [0x1E4A]);
    (0x1E4D, [0x1E4C]); (0x1E4F, [0x1E4E]); (0x1E51, [0x1E50]);
    (0x1E53, [0x1E52]); (0x1E55, [0x1E54]); (0x1E57, [0x1E56]);
    (0x1E59, [0x1E58]); (0x1E5B, [0x1E5A]); (0x1E5D, [0x1E5C]);
    (0x1E5F, [0x1E5E]); (0x1E61, [0x1E60]); (0x1E63, [0x1E62]);
    (0x1E65, [0x1E64]); (0x1E67, [0x1E66]); (0x1E69, [0x1E68]);
    (0x1E6B, [0x1E6A]); (0x1E6D, [0x1E6C]); (0x1E6F, [0x1E6E]);
    (0x1E71, [0x1E70]); (0x1E73, [0x1E72]); (0x1E75, [0x1E74]);
    (0x1E77, [0x1E76]); (0x1E79, [0x1E78]); (0x1E7B, [0x1E7A]);
    (0x1E7D, [0x1E7C]); (0x1E7F, [0x1E7E]); (0x1E81, [0x1E80]);
    (0x1E83, [0x1E82]); (0x1E85, [0x1E84]); (0x1E87, [0x1E86]);
    (0x1E89, [0x1E88]); (0x1E8B, [0x1E8A]); (0x1E8D, [0x1E8C]);
    (0x1E8F, [0x1E8E]); (0x1E91, [0x1E90]); (0x1E93, [0x1E92]);
    (0x1E95, [0x1E94]); (0x1E96, [0x48; 0x331]); (0x1E97, [0x54; 0x308]);
    (0x1E98, [0x57; 0x30A]); (0x1E99, [0x59; 0x30A]); (0x1E9A, [0x41; 0x2BE]);
    (0x1E9B, [0x1E60]); (0x1EA1, [0x1EA0]); (0x1EA3, [0x1EA2]);
    (0x1EA5, [0x1EA4]); (0x1EA7, [0x1EA6]); (0x1EA9, [0x1EA8]);
    (0x1EAB, [0x1EAA]); (0x1EAD, [0x1EAC]); (0x1EAF, [0x1EAE]);
    (0x1EB1, [0x1EB0]); (0x1EB3, [0x1EB2]); (0x1EB5, [0x1EB4]);
    (0x1EB7, [0x1EB6]); (0x1EB9, [0x1EB8]); (0x1EBB, [0x1EBA]);
    (0x1EBD, [0x1EBC]); (0x1EBF, [0x1EBE]); (0x1EC1, [0x1EC0]);
    (0x1EC3, [0x1EC2]); (0x1EC5, [0x1EC4]); (0x1EC7, [0x1EC6]);
    (0x1EC9, [0x1EC8]); (0x1ECB, [0x1ECA]); (0x1ECD, [0x1ECC]);
    (0x1ECF, [0x1ECE]); (0x1ED1, [0x1ED0]); (0x1ED3, [0x1ED2]);
    (0x1ED5, [0x1ED4]); (0x1ED7, [0x1ED6]); (0x1ED9, [0x1ED8]);
    (0x1EDB, [0x1EDA]); (0x1EDD, [0x1EDC]); (0x1EDF, [0x1EDE]);
    (0x1EE1, [0x1EE0]); (0x1EE3, [0x1EE2]); (0x1EE5, [0x1EE4]);
    (0x1EE7, [0x1EE6]); (0x1EE9, [0x1EE8]); (0x1EEB, [0x1EEA]);
    (0x1EED, [0x1EEC]); (0x1EEF, [0x1EEE]); (0x1EF1, [0x1EF0]);
    (0x1EF3, [0x1EF2]); (0x1EF5, [0x1EF4]); (0x1EF7, [0x1EF6]);
    (0x1EF9, [0x1EF8]); (0x1EFB, [0x1EFA]); (0x1EFD, [0x1EFC]);
    (0x1EFF, [0x1EFE]); (0x1F00, [0x1F08]); (0x1F01, [0x1F09]);
    (0x1F02, [0x1F0A]); (0x1F03, [0x1F0B]); (0x1F04, [0x1F0C]);
    (0x1F05, [0x1F0D]); (0x1F06, [0x1F0E]); (0x1F07, [0x1F0F]);
    (0x1F10, [0x1F18]); (0x1F11, [0x1F19]); (0x1F12, [0x1F1A]);
    (0x1F13, [0x1F1B]); (0x1F14, [0x1F1C]); (0x1F15, [0x1F1D]);
    (0x1F20, [0x1F28]); (0x1F21, [0x1F29]); (0x1F22, [0x1F2A]);
    (0x1F23, [0x1F2B]); (0x1F24, [0x1F2C]); (0x1F25, [0x1F2D]);
    (0x1F26, [0x1F2E]); (0x1F27, [0x1F2F]); (0x1F30, [0x1F38]);
    (0x1F31, [0x1F39]); (0x1F32, [0x1F3A]); (0x1F33, [0x1F3B]);
    (0x1F34, [0x1F3C]); (0x1F35, [0x1F3D]); (0x1F36, [0x1F3E]);
    (0x1F37, [0x1F3F]); (0x1F40, [0x1F48]); (0x1F41, [0x1F49]);
    (0x1F42, [0x1F4A]); (0x1F43, [0x1F4B]); (0x1F44, [0x1F4C]);
    (0x1F45, [0x1F4D]); (0x1F50, [0x3A5; 0x313]); (0x1F51, [0x1F59]);
    (0x1F52, [0x3A5; 0x313; 0x300]); (0x1F53, [0x1F5B]);
    (0x1F54, [0x3A5; 0x313; 0x301]); (0x1F55, [0x1F5D]);
    (0x1F56, [0x3A5; 0x313; 0x342]); (0x1F57, [0x1F5F]); (0x1F60, [0x1F68]);
    (0x1F61, [0x1F69]); (0x1F62, [0x1F6A]); (0x1F63, [0x1F6B]);
    (0x1F64, [0x1F6C]); (0x1F65, [0x1F6D]); (0x1F66, [0x1F6E]);
    (0x1F67, [0x1F6F]); (0x1F70, [0x1FBA]); (0x1F71, [0x1FBB]);
    (0x1F72, [0x1FC8]); (0x1F73, [0x1FC9]); (0x1F74, [0x1FCA]);
    (0x1F75, [0x1FCB]); (0x1F76, [0x1FDA]); (0x1F77, [0x1FDB]);
    (0x1F78, [0x1FF8]); (0x1F79, [0x1FF9]); (0x1F7A, [0x1FEA]);
    (0x1F7B, [0x1FEB]); (0x1F7C, [0x1FFA]); (0x1F7D, [0x1FFB]);
    (0x1F80, [0x1F08; 0x399]); (0x1F81, [0x1F09; 0x399]);
    (0x1F82, [0x1F0A; 0x399]); (0x1F83, [0x1F0B; 0x399]);
    (0x1F84, [0x1F0C; 0x399]); (0x1F85, [0x1F0D; 0x399]);
    (0x1F86, [0x1F0E; 0x399]); (0x1F87, [0x1F0F; 0x399]);
    (0x1F88, [0x1F08; 0x399]); (0x1F89, [0x1F09; 0x399]);
    (0x1F8A, [0x1F0A; 0x399]); (0x1F8B, [0x1F0B; 0x399]);
    (0x1F8C, [0x1F0C; 0x399]); (0x1F8D, [0x1F0D; 0x399]);
    (0x1F8E, [0x1F0E; 0x399]); (0x1F8F, [0x1F0F; 0x399]);
    (0x1F90, [0x1F28; 0x399]); (0x1F91, [0x1F29; 0x399]);
    (0x1F92, [0x1F2A; 0x399]); (0x1F93, [0x1F2B; 0x399]);
    (0x1F94, [0x1F2C; 0x399]); (0x1F95, [0x1F2D; 0x399]);
    (0x1F96, [0x1F2E; 0x399]); (0x1F97, [0x1F2F; 0x399]);
    (0x1F98, [0x1F28; 0x399]); (0x1F99, [0x1F29; 0x399]);
    (0x1F9A, [0x1F2A; 0x399]); (0x1F9B, [0x1F2B; 0x399]);
    (0x1F9C, [0x1F2C; 0x399]); (0x1F9D, [0x1F2D; 0x399]);
    (0x1F9E, [0x1F2E; 0x399]); (0x1F9F, [0x1F2F; 0x399]);
    (0x1FA0, [0x1F68; 0x399]); (0x1FA1, [0x1F69; 0x399]);
    (0x1FA2, [0x1F6A; 0x399]); (0x1FA3, [0x1F6B; 0x399]);
    (0x1FA4, [0x1F6C; 0x399]); (0x1FA5, [0x1F6D; 0x399]);
    (0x1FA6, [0x1F6E; 0x399]); (0x1FA7, [0x1F6F; 0x399]);
    (0x1FA8, [0x1F68; 0x399]); (0x1FA9, [0x1F69; 0x399]);
    (0x1FAA, [0x1F6A; 0x399]); (0x1FAB, [0x1F6B; 0x399]);
    (0x1FAC, [0x1F6C; 0x399]); (0x1FAD, [0x1F6D; 0x399]);
    (0x1FAE, [0x1F6E; 0x399]); (0x1FAF, [0x1F6F; 0x399]); (0x1FB0, [0x1FB8]);
    (0x1FB1, [0x1FB9]); (0x1FB2, [0x1FBA; 0x399]); (0x1FB3, [0x391; 0x399]);
    (0x1FB4, [0x386; 0x399]); (0x1FB6, [0x391; 0x342]);
    (0x1FB7, [0x391; 0x342; 0x399]); (0x1FBC, [0x391; 0x399]);
    (0x1FBE, [0x399]); (0x1FC2, [0x1FCA; 0x399]); (0x1FC3, [0x397; 0x399]);
    (0x1FC4, [0x389; 0x399]); (0x1FC6, [0x397; 0x342]);
    (0x1FC7, [0x397; 0x342; 0x399]); (0x1FCC, [0x397; 0x399]);
    (0x1FD0, [0x1FD8]); (0x1FD1, [0x1FD9]); (0x1FD2, [0x399; 0x308; 0x300]);
    (0x1FD3, [0x399; 0x308; 0x301]); (0x1FD6, [0x399; 0x342]);
    (0x1FD7, [0x399; 0x308; 0x342]); (0x1FE0, [0x1FE8]); (0x1FE1, [0x1FE9]);
    (0x1FE2, [0x3A5; 0x308; 0x300]); (0x1FE3, [0x3A5; 0x308; 0x301]);
    (0x1FE4, [0x3A1; 0x313]); (0x1FE5, [0x1FEC]); (0x1FE6, [0x3A5; 0x342]);
    (0x1FE7, [0x3A5; 0x308; 0x342]); (0x1FF2, [0x1FFA; 0x399]);
    (0x1FF3, [0x3A9; 0x399]); (0x1FF4, [0x38F; 0x399]);
    (0x1FF6, [0x3A9; 0x342]); (0x1FF7, [0x3A9; 0x342; 0x399]);
    (0x1FFC, [0x3A9; 0x399]); (0x214E, [0x2132]); (0x2170, [0x2160]);
    (0x2171, [0x2161]); (0x2172, [0x2162]); (0x2173, [0x2163]);
    (0x2174, [0x2164]); (0x2175, [0x2165]); (0x2176, [0x2166]);
    (0x2177, [0x2167]); (0x2178, [0x2168]); (0x2179, [0x2169]);
    (0x217A, [0x216A]); (0x217B, [0x216B]); (0x217C, [0x216C]);
    (0x217D, [0x216D]); (0x217E, [0x216E]); (0x217F, [0x216F]);
    (0x2184, [0x2183]); (0x24D0, [0x24B6]); (0x24D1, [0x24B7]);
    (0x24D2, [0x24B8]); (0x24D3, [0x24B9]); (0x24D4, [0x24BA]);
    (0x24D5, [0x24BB]); (0x24D6, [0x24BC]); (0x24D7, [0x24BD]);
    (0x24D8, [0x24BE]); (0x24D9, [0x24BF]); (0x24DA, [0x24C0]);
    (0x24DB, [0x24C1]); (0x24DC, [0x24C2]); (0x24DD, [0x24C3]);
    (0x24DE, [0x24C4]); (0x24DF, [0x24C5]); (0x24E0, [0x24C6]);
    (0x24E1, [0x24C7]); (0x24E2, [0x24C8]); (0x24E3, [0x24C9]);
    (0x24E4, [0x24CA]); (0x24E5, [0x24CB]); (0x24E6, [0x24CC]);
    (0x24E7, [0x24CD]); (0x24E8, [0x24CE]); (0x24E9, [0x24CF]);
    (0x2C30, [0x2C00]); (0x2C31, [0x2C01]); (0x2C32, [0x2C02]);
    (0x2C33, [0x2C03]); (0x2C34, [0x2C04]); (0x2C35, [0x2C05]);
    (0x2C36, [0x2C06]); (0x2C37, [0x2C07]); (0x2C38, [0x2C08]);
    (0x2C39, [0x2C09]); (0x2C3A, [0x2C0A]); (0x2C3B, [0x2C0B]);
    (0x2C3C, [0x2C0C]); (0x2C3D, [0x2C0D]); (0x2C3E, [0x2C0E]);
    (0x2C3F, [0x2C0F]); (0x2C40, [0x2C10]); (0x2C41, [0x2C11]);
    (0x2C42, [0x2C12]); (0x2C43, [0x2C13]); (0x2C44, [0x2C14]);
    (0x2C45, [0x2C15]); (0x2C46, [0x2C16]); (0x2C47, [0x2C17]);
    (0x2C48, [0x2C18]); (0x2C49, [0x2C19]); (0x2C4A, [0x2C1A]);
    (0x2C4B, [0x2C1B]); (0x2C4C, [0x2C1C]); (0x2C4D, [0x2C1D]);
    (0x2C4E, [0x2C1E]); (0x2C4F, [0x2C1F]); (0x2C50, [0x2C20]);
    (0x2C51, [0x2C21]); (0x2C52, [0x2C22]); (0x2C53, [0x2C23]);
    (0x2C54, [0x2C24]); (0x2C55, [0x2C25]); (0x2C56, [0x2C26]);
    (0x2C57, [0x2C27]); (0x2C58, [0x2C28]); (0x2C59, [0x2C29]);
    (0x2C5A, [0x2C2A]); (0x2C5B, [0x2C2B]); (0x2C5C, [0x2C2C]);
    (0x2C5D, [0x2C2D]); (0x2C5E, [0x2C2E]); (0x2C5F, [0x2C2F]);
    (0x2C61, [0x2C60]); (0x2C65, [0x23A]); (0x2C66, [0x23E]);
    (0x2C68, [0x2C67]); (0x2C6A, [0x2C69]); (0x2C6C, [0x2C6B]);
    (0x2C73, [0x2C72]); (0x2C76, [0x2C75]); (0x2C81, [0x2C80]);
    (0x2C83, [0x2C82]); (0x2C85, [0x2C84]); (0x2C87, [0x2C86]);
    (0x2C89, [0x2C88]); (0x2C8B, [0x2C8A]); (0x2C8D, [0x2C8C]);
    (0x2C8F, [0x2C8E]); (0x2C91, [0x2C90]); (0x2C93, [0x2C92]);
    (0x2C95, [0x2C94]); (0x2C97, [0x2C96]); (0x2C99, [0x2C98]);
    (0x2C9B, [0x2C9A]); (0x2C9D, [0x2C9C]); (0x2C9F, [0x2C9E]);
    (0x2CA1, [0x2CA0]); (0x2CA3, [0x2CA2]); (0x2CA5, [0x2CA4]);
    (0x2CA7, [0x2CA6]); (0x2CA9, [0x2CA8]); (0x2CAB, [0x2CAA]);
    (0x2CAD, [0x2CAC]); (0x2CAF, [0x2CAE]); (0x2CB1, [0x2CB0]);
    (0x2CB3, [0x2CB2]); (0x2CB5, [0x2CB4]); (0x2CB7, [0x2CB6]);
    (0x2CB9, [0x2CB8]); (0x2CBB, [0x2CBA]); (0x2CBD, [0x2CBC]);
    (0x2CBF, [0x2CBE]); (0x2CC1, [0x2CC0]); (0x2CC3, [0x2CC2]);
    (0x2CC5, [0x2CC4]); (0x2CC7, [0x2CC6]); (0x2CC9, [0x2CC8]);
    (0x2CCB, [0x2CCA]); (0x2CCD, [0x2CCC]); (0x2CCF, [0x2CCE]);
    (0x2CD1, [0x2CD0]); (0x2CD3, [0x2CD2]); (0x2CD5, [0x2CD4]);
    (0x2CD7, [0x2CD6]); (0x2CD9, [0x2CD8]); (0x2CDB, [0x2CDA]);
    (0x2CDD, [0x2CDC]); (0x2CDF, [0x2CDE]); (0x2CE1, [0x2CE0]);
    (0x2CE3, [0x2CE2]); (0x2CEC, [0x2CEB]); (0x2CEE, [0x2CED]);
    (0x2CF3, [0x2CF2]); (0x2D00, [0x10A0]); (0x2D01, [0x10A1]);
    (0x2D02, [0x10A2]); (0x2D03, [0x10A3]); (0x2D04, [0x10A4]);
    (0x2D05, [0x10A5]); (0x2D06, [0x10A6]); (0x2D07, [0x10A7]);
    (0x2D08, [0x10A8]); (0x2D09, [0x10A9]); (0x2D0A, [0x10AA]);
    (0x2D0B, [0x10AB]); (0x2D0C, [0x10AC]); (0x2D0D, [0x10AD]);
    (0x2D0E, [0x10AE]); (0x2D0F, [0x10AF]); (0x2D10, [0x10B0]);
    (0x2D11, [0x10B1]); (0x2D12, [0x10B2]); (0x2D13, [0x10B3]);
    (0x2D14, [0x10B4]); (0x2D15, [0x10B5]); (0x2D16, [0x10B6]);
    (0x2D17, [0x10B7]); (0x2D18, [0x10B8]); (0x2D19, [0x10B9]);
    (0x2D1A, [0x10BA]); (0x2D1B, [0x10BB]); (0x2D1C, [0x10BC]);
    (0x2D1D, [0x10BD]); (0x2D1E, [0x10BE]); (0x2D1F, [0x10BF]);
    (0x2D20, [0x10C0]); (0x2D21, [0x10C1]); (0x2D22, [0x10C2]);
    (0x2D23, [0x10C3]); (0x2D24, [0x10C4]); (0x2D25, [0x10C5]);
    (0x2D27, [0x10C7]); (0x2D2D, [0x10CD]); (0xA641, [0xA640]);
    (0xA643, [0xA642]); (0xA645, [0xA644]); (0xA647, [0xA646]);
    (0xA649, [0xA648]); (0xA64B, [0xA64A]); (0xA64D, [0xA64C]);
    (0xA64F, [0xA64E]); (0xA651, [0xA650]); (0xA653, [0xA652]);
    (0xA655, [0xA654]); (0xA657, [0xA656]); (0xA659, [0xA658]);
    (0xA65B, [0xA65A]); (0xA65D, [0xA65C]); (0xA65F, [0xA65E]);
    (0xA661, [0xA660]); (0xA663, [0xA662]); (0xA665, [0xA664]);
    (0xA667, [0xA666]); (0xA669, [0xA668]); (0xA66B, [0xA66A]);
    (0xA66D, [0xA66C]); (0xA681, [0xA680]); (0xA683, [0xA682]);
    (0xA685, [0xA684]); (0xA687, [0xA686]); (0xA689, [0xA688]);
    (0xA68B, [0xA68A]); (0xA68D, [0xA68C]); (0xA68F, [0xA68E]);
    (0xA691, [0xA690]); (0xA693, [0xA692]); (0xA695, [0xA694]);
    (0xA697, [0xA696]); (0xA699, [0xA698]); (0xA69B, [0xA69A]);
    (0xA723, [0xA722]); (0xA725, [0xA724]); (0xA727, [0xA726]);
    (0xA729, [0xA728]); (0xA72B, [0xA72A]); (0xA72D, [0xA72C]);
    (0xA72F, [0xA72E]); (0xA733, [0xA732]); (0xA735, [0xA734]);
    (0xA737, [0xA736]); (0xA739, [0xA738]); (0xA73B, [0xA73A]);
    (0xA73D, [0xA73C]); (0xA73F, [0xA73E]); (0xA741, [0xA740]);
    (0xA743, [0xA742]); (0xA745, [0xA744]); (0xA747, [0xA746]);
    (0xA749, [0xA748]); (0xA74B, [0xA74A]); (0xA74D, [0xA74C]);
    (0xA74F, [0xA74E]); (0xA751, [0xA750]); (0xA753, [0xA752]);
    (0xA755, [0xA754]); (0xA757, [0xA756]); (0xA759, [0xA758]);
    (0xA75B, [0xA75A]); (0xA75D, [0xA75C]); (0xA75F, [0xA75E]);
    (0xA761, [0xA760]); (0xA763, [0xA762]); (0xA765, [0xA764]);
    (0xA767, [0xA766]); (0xA769, [0xA768]); (0xA76B, [0xA76A]);
    (0xA76D, [0xA76C]); (0xA76F, [0xA76E]); (0xA77A, [0xA779]);
    (0xA77C, [0xA77B]); (0xA77F, [0xA77E]); (0xA781, [0xA780]);
    (0xA783, [0xA782]); (0xA785, [0xA784]); (0xA787, [0xA786]);
    (0xA78C, [0xA78B]); (0xA791, [0xA790]); (0xA793, [0xA792]);
    (0xA794, [0xA7C4]); (0xA797, [0xA796]); (0xA799, [0xA798]);
    (0xA79B, [0xA79A]); (0xA79D, [0xA79C]); (0xA79F, [0xA79E]);
    (0xA7A1, [0xA7A0]); (0xA7A3, [0xA7A2]); (0xA7A5, [0xA7A4]);
    (0xA7A7, [0xA7A6]); (0xA7A9, [0xA7A8]); (0xA7B5, [0xA7B4]);
    (0xA7B7, [0xA7B6]); (0xA7B9, [0xA7B8]); (0xA7BB, [0xA7BA]);
    (0xA7BD, [0xA7BC]); (0xA7BF, [0xA7BE]); (0xA7C1, [0xA7C0]);
    (0xA7C3, [0xA7C2]); (0xA7C8, [0xA7C7]); (0xA7CA, [0xA7C9]);
    (0xA7D1, [0xA7D0]); (0xA7D7, [0xA7D6]); (0xA7D9, [0xA7D8]);
    (0xA7F6, [0xA7F5]); (0xAB53, [0xA7B3]); (0xAB70, [0x13A0]);
    (0xAB71, [0x13A1]); (0xAB72, [0x13A2]); (0xAB73, [0x13A3]);
    (0xAB74, [0x13A4]); (0xAB75, [0x13A5]); (0xAB76, [0x13A6]);
    (0xAB77, [0x13A7]); (0xAB78, [0x13A8]); (0xAB79, [0x13A9]);
    (0xAB7A, [0x13AA]); (0xAB7B, [0x13AB]); (0xAB7C, [0x13AC]);
    (0xAB7D, [0x13AD]); (0xAB7E, [0x13AE]); (0xAB7F, [0x13AF]);
    (0xAB80, [0x13B0]); (0xAB81, [0x13B1]); (0xAB82, [0x13B2]);
    (0xAB83, [0x13B3]); (0xAB84, [0x13B4]); (0xAB85, [0x13B5]);
    (0xAB86, [0x13B6]); (0xAB87, [0x13B7]); (0xAB88, [0x13B8]);
    (0xAB89, [0x13B9]); (0xAB8A, [0x13BA]); (0xAB8B, [0x13BB]);
    (0xAB8C, [0x13BC]); (0xAB8D, [0x13BD]); (0xAB8E, [0x13BE]);
    (0xAB8F, [0x13BF]); (0xAB90, [0x13C0]); (0xAB91, [0x13C1]);
    (0xAB92, [0x13C2]); (0xAB93, [0x13C3]); (0xAB94, [0x13C4]);
    (0xAB95, [0x13C5]); (0xAB96, [0x13C6]); (0xAB97, [0x13C7]);
    (0xAB98, [0x13C8]); (0xAB99, [0x13C9]); (0xAB9A, [0x13CA]);
    (0xAB9B, [0x13CB]); (0xAB9C, [0x13CC]); (0xAB9D, [0x13CD]);
    (0xAB9E, [0x13CE]); (0xAB9F, [0x13CF]); (0xABA0, [0x13D0]);
    (0xABA1, [0x13D1]); (0xABA2, [0x13D2]); (0xABA3, [0x13D3]);
    (0xABA4, [0x13D4]); (0xABA5, [0x13D5]); (0xABA6, [0x13D6]);
    (0xABA7, [0x13D7]); (0xABA8, [0x13D8]); (0xABA9, [0x13D9]);
    (0xABAA, [0x13DA]); (0xABAB, [0x13DB]); (0xABAC, [0x13DC]);
    (0xABAD, [0x13DD]); (0xABAE, [0x13DE]); (0xABAF, [0x13DF]);
    (0xABB0, [0x13E0]); (0xABB1, [0x13E1]); (0xABB2, [0x13E2]);
    (0xABB3, [0x13E3]); (0xABB4, [0x13E4]); (0xABB5, [0x13E5]);
    (0xABB6, [0x13E6]); (0xABB7, [0x13E7]); (0xABB8, [0x13E8]);
    (0xABB9, [0x13E9]); (0xABBA, [0x13EA]); (0xABBB, [0x13EB]);
    (0xABBC, [0x13EC]); (0xABBD, [0x13ED]); (0xABBE, [0x13EE]);
    (0xABBF, [0x13EF]); (0xFB00, [0x46; 0x46]); (0xFB01, [0x46; 0x49]);
    (0xFB02, [0x46; 0x4C]); (0xFB03, [0x46; 0x46; 0x49]);
    (0xFB04, [0x46; 0x46; 0x4C]); (0xFB05, [0x53; 0x54]);
    (0xFB06, [0x53; 0x54]); (0xFB13, [0x544; 0x546]);
    (0xFB14, [0x544; 0x535]); (0xFB15, [0x544; 0x53B]);
    (0xFB16, [0x54E; 0x546]); (0xFB17, [0x544; 0x53D]); (0xFF41, [0xFF21]);
    (0xFF42, [0xFF22]); (0xFF43, [0xFF23]); (0xFF44, [0xFF24]);
    (0xFF45, [0xFF25]); (0xFF46, [0xFF26]); (0xFF47, [0xFF27]);
    (0xFF48, [0xFF28]); (0xFF49, [0xFF29]); (0xFF4A, [0xFF2A]);
    (0xFF4B, [0xFF2B]); (0xFF4C, [0xFF2C]); (0xFF4D, [0xFF2D]);
    (0xFF4E, [0xFF2E]); (0xFF4F, [0xFF2F]); (0xFF50, [0xFF30]);
    (0xFF51, [0xFF31]); (0xFF52, [0xFF32]); (0xFF53, [0xFF33]);
    (0xFF54, [0xFF34]); (0xFF55, [0xFF35]); (0xFF56, [0xFF36]);
    (0xFF57, [0xFF37]); (0xFF58, [0xFF38]); (0xFF59, [0xFF39]);
    (0xFF5A, [0xFF3A]); (0x10428, [0x10400]); (0x10429, [0x10401]);
    (0x1042A, [0x10402]); (0x1042B, [0x10403]); (0x1042C, [0x10404]);
    (0x1042D, [0x10405]); (0x1042E, [0x10406]); (0x1042F, [0x10407]);
    (0x10430, [0x10408]); (0x10431, [0x10409]); (0x10432, [0x1040A]);
    (0x10433, [0x1040B]); (0x10434, [0x1040C]); (0x10435, [0x1040D]);
    (0x10436, [0x1040E]); (0x10437, [0x1040F]); (0x10438, [0x10410]);
    (0x10439, [0x10411]); (0x1043A, [0x10412]); (0x1043B, [0x10413]);
    (0x1043C, [0x10414]); (0x1043D, [0x10415]); (0x1043E, [0x10416]);
    (0x1043F, [0x10417]); (0x10440, [0x10418]); (0x10441, [0x10419]);
    (0x10442, [0x1041A]); (0x10443, [0x1041B]); (0x10444, [0x1041C]);
    (0x10445, [0x1041D]); (0x10446, [0x1041E]); (0x10447, [0x1041F]);
    (0x10448, [0x10420]); (0x10449, [0x10421]); (0x1044A, [0x10422]);
    (0x1044B, [0x10423]); (0x1044C, [0x10424]); (0x1044D, [0x10425]);
    (0x1044E, [0x10426]); (0x1044F, [0x10427]); (0x104D8, [0x104B0]);
    (0x104D9, [0x104B1]); (0x104DA, [0x104B2]); (0x104DB, [0x104B3]);
    (0x104DC, [0x104B4]); (0x104DD, [0x104B5]); (0x104DE, [0x104B6]);
    (0x104DF, [0x104B7]); (0x104E0, [0x104B8]); (0x104E1, [0x104B9]);
    (0x104E2, [0x104BA]); (0x104E3, [0x104BB]); (0x104E4, [0x104BC]);
    (0x104E5, [0x104BD]); (0x104E6, [0x104BE]); (0x104E7, [0x104BF]);
    (0x104E8, [0x104C0]); (0x104E9, [0x104C1]); (0x104EA, [0x104C2]);
    (0x104EB, [0x104C3]); (0x104EC, [0x104C4]); (0x104ED, [0x104C5]);
    (0x104EE, [0x104C6]); (0x104EF, [0x104C7]); (0x104F0, [0x104C8]);
    (0x104F1, [0x104C9]); (0x104F2, [0x104CA]); (0x104F3, [0x104CB]);
    (0x104F4, [0x104CC]); (0x104F5, [0x104CD]); (0x104F6, [0x104CE]);
    (0x104F7, [0x104CF]); (0x104F8, [0x104D0]); (0x104F9, [0x104D1]);
    (0x104FA, [0x104D2]); (0x104FB, [0x104D3]); (0x10597, [0x10570]);
    (0x10598, [0x10571]); (0x10599, [0x10572]); (0x1059A, [0x10573]);
    (0x1059B, [0x10574]); (0x1059C, [0x10575]); (0x1059D, [0x10576]);
    (0x1059E, [0x10577]); (0x1059F, [0x10578]); (0x105A0, [0x10579]);
    (0x105A1, [0x1057A]); (0x105A3, [0x1057C]); (0x105A4, [0x1057D]);
    (0x105A5, [0x1057E]); (0x105A6, [0x1057F]); (0x105A7, [0x10580]);
    (0x105A8, [0x10581]); (0x105A9, [0x10582]); (0x105AA, [0x10583]);
    (0x105AB, [0x10584]); (0x105AC, [0x10585]); (0x105AD, [0x10586]);
    (0x105AE, [0x10587]); (0x105AF, [0x10588]); (0x105B0, [0x10589]);
    (0x105B1, [0x1058A]); (0x105B3, [0x1058C]); (0x105B4, [0x1058D]);
    (0x105B5, [0x1058E]); (0x105B6, [0x1058F]); (0x105B7, [0x10590]);
    (0x105B8, [0x10591]); (0x105B9, [0x10592]); (0x105BB, [0x10594]);
    (0x105BC, [0x10595]); (0x10CC0, [0x10C80]); (0x10CC1, [0x10C81]);
    (0x10CC2, [0x10C82]); (0x10CC3, [0x10C83]); (0x10CC4, [0x10C84]);
    (0x10CC5, [0x10C85]); (0x10CC6, [0x10C86]); (0x10CC7, [0x10C87]);
    (0x10CC8, [0x10C88]); (0x10CC9, [0x10C89]); (0x10CCA, [0x10C8A]);
    (0x10CCB, [0x10C8B]); (0x10CCC, [0x10C8C]); (0x10CCD, [0x10C8D]);
    (0x10CCE, [0x10C8E]); (0x10CCF, [0x10C8F]); (0x10CD0, [0x10C90]);
    (0x10CD1, [0x10C91]); (0x10CD2, [0x10C92]); (0x10CD3, [0x10C93]);
    (0x10CD4, [0x10C94]); (0x10CD5, [0x10C95]); (0x10CD6, [0x10C96]);
    (0x10CD7, [0x10C97]); (0x10CD8, [0x10C98]); (0x10CD9, [0x10C99]);
    (0x10CDA, [0x10C9A]); (0x10CDB, [0x10C9B]); (0x10CDC, [0x10C9C]);
    (0x10CDD, [0x10C9D]); (0x10CDE, [0x10C9E]); (0x10CDF, [0x10C9F]);
    (0x10CE0, [0x10CA0]); (0x10CE1, [0x10CA1]); (0x10CE2, [0x10CA2]);
    (0x10CE3, [0x10CA3]); (0x10CE4, [0x10CA4]); (0x10CE5, [0x10CA5]);
    (0x10CE6, [0x10CA6]); (0x10CE7, [0x10CA7]); (0x10CE8, [0x10CA8]);
    (0x10CE9, [0x10CA9]); (0x10CEA, [0x10CAA]); (0x10CEB, [0x10CAB]);
    (0x10CEC, [0x10CAC]); (0x10CED, [0x10CAD]); (0x10CEE, [0x10CAE]);
    (0x10CEF, [0x10CAF]); (0x10CF0, [0x10CB0]); (0x10CF1, [0x10CB1]);
    (0x10CF2, [0x10CB2]); (0x118C0, [0x118A0]); (0x118C1, [0x118A1]);
    (0x118C2, [0x118A2]); (0x118C3, [0x118A3]); (0x118C4, [0x118A4]);
    (0x118C5, [0x118A5]); (0x118C6, [0x118A6]); (0x118C7, [0x118A7]);
    (0x118C8, [0x118A8]); (0x118C9, [0x118A9]); (0x118CA, [0x118AA]);
    (0x118CB, [0x118AB]); (0x118CC, [0x118AC]); (0x118CD, [0x118AD]);
    (0x118CE, [0x118AE]); (0x118CF, [0x118AF]); (0x118D0, [0x118B0]);
    (0x118D1, [0x118B1]); (0x118D2, [0x118B2]); (0x118D3, [0x118B3]);
    (0x118D4, [0x118B4]); (0x118D5, [0x118B5]); (0x118D6, [0x118B6]);
    (0x118D7, [0x118B7]); (0x118D8, [0x118B8]); (0x118D9, [0x118B9]);
    (0x118DA, [0x118BA]); (0x118DB, [0x118BB]); (0x118DC, [0x118BC]);
    (0x118DD, [0x118BD]); (0x118DE, [0x118BE]); (0x118DF, [0x118BF]);
    (0x16E60, [0x16E40]); (0x16E61, [0x16E41]); (0x16E62, [0x16E42]);
    (0x16E63, [0x16E43]); (0x16E64, [0x16E44]); (0x16E65, [0x16E45]);
    (0x16E66, [0x16E46]); (0x16E67, [0x16E47]); (0x16E68, [0x16E48]);
    (0x16E69, [0x16E49]); (0x16E6A, [0x16E4A]); (0x16E6B, [0x16E4B]);
    (0x16E6C, [0x16E4C]); (0x16E6D, [0x16E4D]); (0x16E6E, [0x16E4E]);
    (0x16E6F, [0x16E4F]); (0x16E70, [0x16E50]); (0x16E71, [0x16E51]);
    (0x16E72, [0x16E52]); (0x16E73, [0x16E53]); (0x16E74, [0x16E54]);
    (0x16E75, [0x16E55]); (0x16E76, [0x16E56]); (0x16E77, [0x16E57]);
    (0x16E78, [0x16E58]); (0x16E79, [0x16E59]); (0x16E7A, [0x16E5A]);
    (0x16E7B, [0x16E5B]); (0x16E7C, [0x16E5C]); (0x16E7D, [0x16E5D]);
    (0x16E7E, [0x16E5E]); (0x16E7F, [0x16E5F]); (0x1E922, [0x1E900]);
    (0x1E923, [0x1E901]); (0x1E924, [0x1E902]); (0x1E925, [0x1E903]);
    (0x1E926, [0x1E904]); (0x1E927, [0x1E905]); (0x1E928, [0x1E906]);
    (0x1E929, [0x1E907]); (0x1E92A, [0x1E908]); (0x1E92B, [0x1E909]);
    (0x1E92C, [0x1E90A]); (0x1E92D, [0x1E90B]); (0x1E92E, [0x1E90C]);
    (0x1E92F, [0x1E90D]); (0x1E930, [0x1E90E]); (0x1E931, [0x1E90F]);
    (0x1E932, [0x1E910]); (0x1E933, [0x1E911]); (0x1E934, [0x1E912]);
    (0x1E935, [0x1E913]); (0x1E936, [0x1E914]); (0x1E937, [0x1E915]);
    (0x1E938, [0x1E916]); (0x1E939, [0x1E917]); (0x1E93A, [0x1E918]);
    (0x1E93B, [0x1E919]); (0x1E93C, [0x1E91A]); (0x1E93D, [0x1E91B]);
    (0x1E93E, [0x1E91C]); (0x1E93F, [0x1E91D]); (0x1E940, [0x1E91E]);
    (0x1E941, [0x1E91F]); (0x1E942, [0x1E920]); (0x1E943, [0x1E921]) ]%N.

(** The entry of a code point in a case table, if it has one. *)
Fixpoint case_lookup (c : N) (table : list (N * list N)) : option (list N) :=
  match table with
  | [] => None
  | (k, v) :: rest => if (c =? k)%N then Some v else case_lookup c rest
  end.

(** [str.upper()] on one code point: its entry in the table, and the code
    point itself when it has none.  [str.upper()] on a string upper-cases
    each code point on its own and joins the results. *)
Definition upper_char (c : N) : list N :=
  match case_lookup c upper_table with
  | Some v => v
  | None => [c]
  end.

Definition upper (s : list N) : list N := s ≫= upper_char.

(** [s.replace] of the space by the empty string: the result is a new
    string, [s] itself is not changed. *)
Definition remove_spaces (s : list N) : list N :=
  filter (λ c, c ≠ chr " ") s.

(** ** Module constants *)

Definition abc : list N := lit "ABCDEFGHIJKLMNOPQRSTUVWXYZ".

Definition rotor1 : list N := lit "EGZWVONAHDCLFQMSIPJBYUKXTR".
Definition rotor2 : list N := lit "FOBHMDKEXQNRAULPGSJVTYICZW".
Definition rotor3 : list N := lit "ZJXESIUQLHAVRMDOYGTNFWPBKC".

Definition reflector : gmap N N :=
  list_to_map
    [ (chr "A", chr "N"); (chr "N", chr "A");
      (chr "B", chr "O"); (chr "O", chr "B");
      (chr "C", chr "P"); (chr "P", chr "C");
      (chr "D", chr "Q"); (chr "Q", chr "D");
      (chr "E", chr "R"); (chr "R", chr "E");
      (chr "F", chr "S"); (chr "S", chr "F");
      (chr "G", chr "T"); (chr "T", chr "G");
      (chr "H", chr "U"); (chr "U", chr "H");
      (chr "I", chr "V"); (chr "V", chr "I");
      (chr "J", chr "W"); (chr "W", chr "J");
      (chr "K", chr "X"); (chr "X", chr "K");
      (chr "L", chr "Y"); (chr "Y", chr "L");
      (chr "M", chr "Z"); (chr "Z", chr "M") ].

Definition rotor4 : list N := lit "RMDJXFUWGISLHVTCQNKYPBEZOA".
Definition rotor5 : list N := lit "SGLCPQWZHKXAREONTFBVIYJUDM".
Definition rotor6 : list N := lit "HVSICLTYKQUBXDWAJZOMFGPREN".
Definition rotor7 : list N := lit "RZWQHFMVDBKICJLNTUXAGYPSOE".
Definition rotor8 : list N := lit "LFKIJODBEGAMQPXVUHYSTCZRWN".
Definition rotor9 : list N := lit "KOAEGVDHXPQZMLFTYWJNBRCIUS".

Definition rotor_list : list (list N) :=
  [rotor1; rotor2; rotor3; rotor4; rotor5; rotor6; rotor7; rotor8; rotor9].

(** ** The exceptions of the validation code

    One definition per [raise] statement of [_validator] and [_plugboard],
    named after the failure it reports. *)

(** [Exception(f"Please use 3 unique rotors (not {unique_rotsel})")] *)
Definition DuplicateRotor (unique_rotsel : nat) : exn :=
  mk_exn Exception
    (lit "Please use 3 unique rotors (not "
       ++ format_int (Z.of_nat unique_rotsel) ++ lit ")").

Inductive slot : Set := First | Second | Third.

(** The three [ValueError]s of [_validator].  The message for the first
    slot has no closing parenthesis in the source. *)
Definition PositionOutOfRange (s : slot) (rotorpos : Z) : exn :=
  mk_exn ValueError
    match s with
    | First =>
        lit "First rotor position is not within range of 1..26 ("
          ++ format_int rotorpos
    | Second =>
        lit "Second rotor position is not within range of 1..26 ("
          ++ format_int rotorpos ++ lit ")"
    | Third =>
        lit "Third rotor position is not within range of 1..26 ("
          ++ format_int rotorpos ++ lit ")"
    end.

(** [Exception(f"Odd number of symbols ({len(pbstring)})")] *)
Definition OddPlugboardLength (n : Z) : exn :=
  mk_exn Exception (lit "Odd number of symbols (" ++ format_int n ++ lit ")").

(** [Exception(f"'{i}' not in list of symbols")] *)
Definition InvalidPlugboardSymbol (i : N) : exn :=
  mk_exn Exception (lit "'" ++ [i] ++ lit "' not in list of symbols").

(** [Exception(f"Duplicate symbol ({i})")] *)
Definition DuplicatePlugboardSymbol (i : N) : exn :=
  mk_exn Exception (lit "Duplicate symbol (" ++ [i] ++ lit ")").

(** ** [_plugboard] *)

(** The first loop: every character is an alphabet letter and occurs once.
    [tmppbl] is the set of characters seen so far. *)
Fixpoint check_symbols (pbstring : list N) (tmppbl : gset N) : result unit :=
  match pbstring with
  | [] => Ok tt
  | i :: rest =>
      if negb (str_in i abc) then Raise (InvalidPlugboardSymbol i)
      else if bool_decide (i ∈ tmppbl) then Raise (DuplicatePlugboardSymbol i)
      else check_symbols rest ({[i]} ∪ tmppbl)
  end.

(** The second loop, [for j in range(0, len(pbstring) - 1, 2)]: it takes
    the characters two at a time and stops when fewer than two are left. *)
Fixpoint make_pairs (pbstring : list N) (pb : gmap N N) : gmap N N :=
  match pbstring with
  | a :: b :: rest => make_pairs rest (<[b := a]> (<[a := b]> pb))
  | _ => pb
  end.

(** The [isinstance] test of the source cannot fail here: [pbstring] is a
    string by its type.  The source calls [pbstring.replace] to drop the
    spaces and throws the result away, and so does this definition. *)
Definition _plugboard (pbstring : list N) : result (gmap N N) :=
  if negb (len pbstring `mod` 2 =? 0) then
    Raise (OddPlugboardLength (len pbstring))
  else if bool_decide (pbstring = []) then Ok ∅
  else
    let _ := remove_spaces pbstring in
    _ ← check_symbols pbstring ∅;
    Ok (make_pairs pbstring ∅).

(** ** [_validator] *)

Definition _validator (rotpos : Z * Z * Z)
    (rotsel : list N * list N * list N) (pb : list N)
  : result ((Z * Z * Z) * (list N * list N * list N) * gmap N N) :=
  let '(r1, r2, r3) := rotsel in
  let unique_rotsel := size (list_to_set [r1; r2; r3] : gset (list N)) in
  if (unique_rotsel <? 3)%nat then Raise (DuplicateRotor unique_rotsel)
  else
    let '(rotorpos1, rotorpos2, rotorpos3) := rotpos in
    if negb ((0 <? rotorpos1) && (rotorpos1 <=? len abc)) then
      Raise (PositionOutOfRange First rotorpos1)
    else if negb ((0 <? rotorpos2) && (rotorpos2 <=? len abc)) then
      Raise (PositionOutOfRange Second rotorpos2)
    else if negb ((0 <? rotorpos3) && (rotorpos3 <=? len abc)) then
      Raise (PositionOutOfRange Third rotorpos3)
    else
      pbdict ← _plugboard pb;
      Ok (rotpos, rotsel, pbdict).

(** ** [enigma] *)

(** [if symbol in plugboard: symbol = plugboard[symbol]] *)
Definition plug (plugboard : gmap N N) (symbol : N) : N :=
  match plugboard !! symbol with
  | Some partner => partner
  | None => symbol
  end.

(** One rotor on the way in:
    [index = abc.index(symbol) + rotorpos; symbol = rotor[index % len(abc)]] *)
Definition rotor_forward (rotor : list N) (rotorpos : Z) (symbol : N)
  : result N :=
  i ← str_index abc symbol;
  let index := Z.of_nat i + rotorpos in
  str_getitem rotor (index `mod` len abc).

(** One rotor on the way back:
    [symbol = abc[rotor.index(symbol) - rotorpos]] *)
Definition rotor_backward (rotor : list N) (rotorpos : Z) (symbol : N)
  : result N :=
  i ← str_index rotor symbol;
  str_getitem abc (Z.of_nat i - rotorpos).

(** The body of the loop for one alphabet letter, up to the second
    plugboard. *)
Definition encipher (rotor_selection : list N * list N * list N)
    (plugboard : gmap N N) (pos : Z * Z * Z) (symbol : N) : result N :=
  let '(rotor1, rotor2, rotor3) := rotor_selection in
  let '(rotorpos1, rotorpos2, rotorpos3) := pos in
  let symbol := plug plugboard symbol in
  symbol ← rotor_forward rotor1 rotorpos1 symbol;
  symbol ← rotor_forward rotor2 rotorpos2 symbol;
  symbol ← rotor_forward rotor3 rotorpos3 symbol;
  symbol ← dict_getitem reflector symbol;
  symbol ← rotor_backward rotor3 rotorpos3 symbol;
  symbol ← rotor_backward rotor2 rotorpos2 symbol;
  symbol ← rotor_backward rotor1 rotorpos1 symbol;
  Ok (plug plugboard symbol).

(** "moves/resets rotor positions": the three [if]s run one after the
    other, each on the values the previous one left. *)
Definition advance (pos : Z * Z * Z) : Z * Z * Z :=
  let '(rotorpos1, rotorpos2, rotorpos3) := pos in
  let rotorpos1 := rotorpos1 + 1 in
  let '(rotorpos1, rotorpos2) :=
    if rotorpos1 >=? len abc then (0, rotorpos2 + 1)
    else (rotorpos1, rotorpos2) in
  let '(rotorpos2, rotorpos3) :=
    if rotorpos2 >=? len abc then (0, rotorpos3 + 1)
    else (rotorpos2, rotorpos3) in
  let rotorpos3 := if rotorpos3 >=? len abc then 0 else rotorpos3 in
  (rotorpos1, rotorpos2, rotorpos3).

(** [for symbol in text: ...; result.append(symbol)].  The state is the
    offsets and the list [result]; the loop returns both. *)
Fixpoint enigma_loop (rotor_selection : list N * list N * list N)
    (plugboard : gmap N N) (text : list N) (pos : Z * Z * Z)
    (result_ : list N) : result ((Z * Z * Z) * list N) :=
  match text with
  | [] => Ok (pos, result_)
  | symbol :: rest =>
      if str_in symbol abc then
        symbol' ← encipher rotor_selection plugboard pos symbol;
        enigma_loop rotor_selection plugboard rest (advance pos)
          (result_ ++ [symbol'])
      else
        enigma_loop rotor_selection plugboard rest pos (result_ ++ [symbol])
  end.

(** The offsets the loop starts from: each dial position minus one. *)
Definition start_offsets (rotor_position : Z * Z * Z) : Z * Z * Z :=
  let '(rotorpos1, rotorpos2, rotorpos3) := rotor_position in
  (rotorpos1 - 1, rotorpos2 - 1, rotorpos3 - 1).

Definition enigma (text : list N) (rotor_position : Z * Z * Z)
    (rotor_selection : list N * list N * list N) (plugb : list N)
  : result (list N) :=
  let text := upper text in
  '(rotor_position, rotor_selection, plugboard) ←
    _validator rotor_position rotor_selection (upper plugb);
  '(_, result_) ←
    enigma_loop rotor_selection plugboard text
      (start_offsets rotor_position) [];
  Ok result_.

(** The offsets the loop ends with, for the statements about stepping. *)
Definition enigma_final_offsets (text : list N) (rotor_position : Z * Z * Z)
    (rotor_selection : list N * list N * list N) (plugb : list N)
  : result (Z * Z * Z) :=
  let text := upper text in
  '(rotor_position, rotor_selection, plugboard) ←
    _validator rotor_position rotor_selection (upper plugb);
  '(pos, _) ←
    enigma_loop rotor_selection plugboard text
      (start_offsets rotor_position) [];
  Ok pos.

(** ** The loop under [__main__]

    Each round reads a message and two lines of numbers, builds the
    positions and the selection from them, and prints the message
    enciphered and then deciphered with the plugboard "pictures".  The
    reading of the lines and their conversion with [int] are not modelled:
    a round is given the message and, for each of the two lines, the three
    integers it has produced. *)

(** [l[i]] on a list: a negative index counts from the end; [IndexError]
    outside [-len(l) .. len(l)-1]. *)
Definition list_getitem {A} (l : list A) (i : Z) : result A :=
  let i' := if i <? 0 then i + Z.of_nat (length l) else i in
  if i' <? 0 then Raise (mk_exn IndexError (lit "list index out of range"))
  else match l !! Z.to_nat i' with
       | Some x => Ok x
       | None => Raise (mk_exn IndexError (lit "list index out of range"))
       end.

(** [rotor_list[int(i)-1]], for the integer [n] that [int(i)] gave. *)
Definition select_rotor (n : Z) : result (list N) :=
  list_getitem rotor_list (n - 1).

(** [print(a, b)] writes [a], a space and [b] on a line. *)
Definition print_line (a b : list N) : list N := a ++ lit " " ++ b.

(** One round: the lines printed, and the exception that ends the round
    if there is one.  The first line is printed before the second call of
    [enigma] is made. *)
Definition driver_round (message : list N) (rotor_pos : Z * Z * Z)
    (numbers : Z * Z * Z) : list (list N) * option exn :=
  let pb := lit "pictures" in
  let '(n1, n2, n3) := numbers in
  match r1 ← select_rotor n1; r2 ← select_rotor n2; r3 ← select_rotor n3;
        Ok (r1, r2, r3) with
  | Raise e => ([], Some e)
  | Ok rotor_sel =>
      match enigma message rotor_pos rotor_sel pb with
      | Raise e => ([], Some e)
      | Ok en =>
          let line1 := print_line (lit "Encrypted message:") en in
          match enigma en rotor_pos rotor_sel pb with
          | Raise e => ([line1], Some e)
          | Ok de => ([line1; print_line (lit "Decrypted message:") de], None)
          end
      end
  end.

(** * Vocabulary of the statements *)

(** A rotor wiring: a reordering of the 26 symbols of the alphabet. *)
Definition wiring (rotor : list N) : Prop := rotor ≡ₚ abc.

(** An offset the loop can hold: 0..25. *)
Definition offset_ok (rotorpos : Z) : Prop := 0 ≤ rotorpos < len abc.

(** The test run on each alphabet symbol to check the reflector table. *)
Definition reflector_ok (x : N) : bool :=
  match reflector !! x with
  | Some y =>
      bool_decide (y ≠ x) && str_in y abc
        && bool_decide (reflector !! y = Some x)
  | None => false
  end.

(** A well-formed plugboard specification: an even number of characters,
    all of them alphabet letters, none of them twice. *)
Definition well_formed_spec (spec : list N) : Prop :=
  (length spec `mod` 2 = 0)%nat ∧ Forall (λ c, c ∈ abc) spec ∧ NoDup spec.

(** What the engine needs of a plugboard: partners are mutual and are
    alphabet letters. *)
Definition plugboard_ok (p : gmap N N) : Prop :=
  ∀ a b, p !! a = Some b → p !! b = Some a ∧ b ∈ abc.

(** All three selected rotors are wirings. *)
Definition wirings (rotor_selection : list N * list N * list N) : Prop :=
  let '(r1, r2, r3) := rotor_selection in wiring r1 ∧ wiring r2 ∧ wiring r3.

(** All three offsets are in 0..25. *)
Definition offsets_ok (pos : Z * Z * Z) : Prop :=
  let '(p1, p2, p3) := pos in offset_ok p1 ∧ offset_ok p2 ∧ offset_ok p3.

(** The offsets count in base 26: [advance] adds one to the number they
    spell, and the highest digit wraps. *)
Definition counter (pos : Z * Z * Z) : Z :=
  let '(p1, p2, p3) := pos in p1 + 26 * p2 + 676 * p3.

(** The offsets that spell a number below 26 * 26 * 26. *)
Definition of_counter (n : Z) : Z * Z * Z :=
  (n `mod` 26, (n / 26) `mod` 26, (n / 676) `mod` 26).

(** A character that [upper] leaves alone. *)
Definition upper_fixed (c : N) : Prop := upper_char c = [c].

(** The code points U+0000..U+00FF. *)
Definition latin1 : list N := N.of_nat <$> seq 0 256.

(** The alphabet letters of a text, in order. *)
Definition letters (text : list N) : list N := filter (λ c, c ∈ abc) text.

(** How the output relates to the text, position by position: a letter
    becomes a letter, anything else stays. *)
Definition enciphered (text out : list N) : Prop :=
  Forall2 (λ c d, if str_in c abc then d ∈ abc else d = c) text out.

(** [len(set(rotsel))] *)
Definition unique_rotors (rotsel : list N * list N * list N) : nat :=
  let '(r1, r2, r3) := rotsel in
  size (list_to_set [r1; r2; r3] : gset (list N)).

(** The three wirings are pairwise different. *)
Definition pairwise_distinct (rotsel : list N * list N * list N) : Prop :=
  let '(r1, r2, r3) := rotsel in NoDup [r1; r2; r3].

(** A dial position between 1 and 26. *)
Definition in_range (rotorpos : Z) : Prop := 1 ≤ rotorpos ≤ 26.

(** All three dial positions are between 1 and 26. *)
Definition positions_in_range (rotpos : Z * Z * Z) : Prop :=
  let '(p1, p2, p3) := rotpos in in_range p1 ∧ in_range p2 ∧ in_range p3.

(** The first slot, if any, whose position is outside 1..26, with that
    position. *)
Definition first_out_of_range (rotpos : Z * Z * Z) : option (slot * Z) :=
  let '(p1, p2, p3) := rotpos in
  if decide (in_range p1) then
    if decide (in_range p2) then
      if decide (in_range p3) then None else Some (Third, p3)
    else Some (Second, p2)
  else Some (First, p1).

(** The first character of an exception's message. *)
Definition first_char (e : exn) : option N := head (exn_msg e).

(** The causes of a validation failure, and the exceptions that report
    each of them. *)
Inductive failure : Set :=
  | FDuplicateRotor
  | FPositionOutOfRange (s : slot)
  | FOddPlugboardLength
  | FInvalidPlugboardSymbol
  | FDuplicatePlugboardSymbol.

(** [reports f e]: [e] is the exception the code raises for cause [f]. *)
Definition reports (f : failure) (e : exn) : Prop :=
  match f with
  | FDuplicateRotor => ∃ n, e = DuplicateRotor n
  | FPositionOutOfRange s => ∃ p, e = PositionOutOfRange s p
  | FOddPlugboardLength => ∃ n, e = OddPlugboardLength n
  | FInvalidPlugboardSymbol => ∃ i, e = InvalidPlugboardSymbol i
  | FDuplicatePlugboardSymbol => ∃ i, e = DuplicatePlugboardSymbol i
  end.

(** What an exception tells its catcher about the cause: its class and the
    first character of its message are enough. *)
Definition signature (f : failure) : exn_class * option N :=
  match f with
  | FDuplicateRotor => (Exception, Some (chr "P"))
  | FPositionOutOfRange First => (ValueError, Some (chr "F"))
  | FPositionOutOfRange Second => (ValueError, Some (chr "S"))
  | FPositionOutOfRange Third => (ValueError, Some (chr "T"))
  | FOddPlugboardLength => (Exception, Some (chr "O"))
  | FInvalidPlugboardSymbol => (Exception, Some (chr "'"))
  | FDuplicatePlugboardSymbol => (Exception, Some (chr "D"))
  end.

#[global] Instance wiring_dec rotor : Decision (wiring rotor).
Proof. unfold wiring. apply _. Defined.

(** The three wirings are taken from [rotor_list]. *)
Definition from_catalog (rotsel : list N * list N * list N) : Prop :=
  let '(r1, r2, r3) := rotsel in
  r1 ∈ rotor_list ∧ r2 ∈ rotor_list ∧ r3 ∈ rotor_list.

(** A valid configuration: dial positions in 1..26, three pairwise
    different wirings of the catalog, and a plugboard specification that
    is well formed once upper-cased, which is how [enigma] hands it to the
    validator.  A specification that is well formed as written is one. *)
Definition valid_configuration (rotpos : Z * Z * Z)
    (rotsel : list N * list N * list N) (plugb : list N) : Prop :=
  positions_in_range rotpos ∧ pairwise_distinct rotsel ∧ from_catalog rotsel ∧
  well_formed_spec (upper plugb).

#[global] Instance valid_configuration_dec rotpos rotsel plugb :
  Decision (valid_configuration rotpos rotsel plugb).
Proof.
  destruct rotpos as [[p1 p2] p3], rotsel as [[r1 r2] r3].
  unfold valid_configuration, positions_in_range, in_range, pairwise_distinct,
    from_catalog, well_formed_spec. apply _.
Defined.

(** U+00DF, the small sharp s: [upper] turns it into two letters. *)
Definition sharp_s : N := 0xDF%N.

(** A character whose upper-case form is a single character.  Every ASCII
    character is one. *)
Definition single (c : N) : Prop := length (upper_char c) = 1%nat.

(** * Properties *)

(** ** Strings *)

Lemma abc_length : length abc = 26%nat.
Proof. reflexivity. Qed.

Lemma len_abc : len abc = 26.
Proof. reflexivity. Qed.

Lemma abc_NoDup : NoDup abc.
Proof. apply (bool_decide_unpack (NoDup abc)). by vm_compute. Qed.

Lemma str_in_true (c : N) (s : list N) : str_in c s = true ↔ c ∈ s.
Proof. unfold str_in. by rewrite bool_decide_eq_true. Qed.

Lemma str_in_false (c : N) (s : list N) : str_in c s = false ↔ c ∉ s.
Proof. unfold str_in. by rewrite bool_decide_eq_false. Qed.

Lemma str_index_lookup (s : list N) (c : N) (i : nat) :
  NoDup s → s !! i = Some c → str_index s c = Ok i.
Proof.
  intros Hnd Hi. unfold str_index.
  destruct (list_find _ s) as [[j x]|] eqn:Hfind.
  - apply list_find_Some in Hfind as (Hx & -> & _).
    by rewrite (NoDup_lookup s i j c Hnd Hi Hx).
  - apply list_find_None in Hfind.
    by destruct (proj1 (Forall_lookup _ _) Hfind i c Hi).
Qed.

Lemma str_index_elem_of (s : list N) (c : N) :
  c ∈ s → ∃ i, str_index s c = Ok i ∧ s !! i = Some c.
Proof.
  intros Hc. unfold str_index.
  destruct (list_find_elem_of (λ x, x = c) s c Hc eq_refl) as [[j x] Hfind].
  rewrite Hfind. exists j. split; [done|].
  by apply list_find_Some in Hfind as (Hx & -> & _).
Qed.

(** Indexing inside [-len(s) .. len(s)-1] reads position [i mod len(s)]. *)
Lemma str_getitem_mod (s : list N) (i : Z) (c : N) :
  - len s ≤ i < len s →
  s !! Z.to_nat (i `mod` len s) = Some c →
  str_getitem s i = Ok c.
Proof.
  intros Hi Hc. unfold str_getitem.
  destruct (Z.ltb_spec i 0) as [Hneg|Hpos].
  - assert (i `mod` len s = i + len s) as Heq.
    { symmetry. apply (Z.mod_unique_pos _ _ (-1)); lia. }
    rewrite Heq in Hc. destruct (Z.ltb_spec (i + len s) 0); [lia|].
    by rewrite Hc.
  - rewrite Z.mod_small in Hc by lia.
    destruct (Z.ltb_spec i 0); [lia|]. by rewrite Hc.
Qed.

(** ** Rotors

    A rotor wiring is a reordering of the alphabet.  For such a wiring the
    way in and the way back are inverse to each other at every offset the
    loop can hold. *)

Section rotor.
Variable rotor : list N.
Hypothesis rotor_wiring : rotor ≡ₚ abc.

Lemma wiring_length : length rotor = 26%nat.
Proof using rotor_wiring. by rewrite rotor_wiring. Qed.

Lemma wiring_NoDup : NoDup rotor.
Proof using rotor_wiring. rewrite rotor_wiring. apply abc_NoDup. Qed.

Lemma wiring_elem_of (c : N) : c ∈ rotor ↔ c ∈ abc.
Proof using rotor_wiring. by rewrite rotor_wiring. Qed.

Lemma rotor_forward_backward (rotorpos : Z) (c : N) :
  offset_ok rotorpos → c ∈ abc →
  ∃ d, rotor_forward rotor rotorpos c = Ok d ∧ d ∈ abc ∧
       rotor_backward rotor rotorpos d = Ok c.
Proof using rotor_wiring.
  unfold offset_ok. rewrite len_abc. intros Hoff Hc.
  destruct (str_index_elem_of abc c Hc) as (i & Hidx & Hi).
  pose proof (lookup_lt_Some _ _ _ Hi) as Hlt. rewrite abc_length in Hlt.
  set (k := (Z.of_nat i + rotorpos) `mod` 26).
  assert (0 ≤ k < 26) as Hk by (apply Z.mod_pos_bound; lia).
  destruct (lookup_lt_is_Some_2 rotor (Z.to_nat k)) as [d Hd].
  { rewrite wiring_length. lia. }
  exists d. split; [|split].
  - unfold rotor_forward. rewrite Hidx. simpl. rewrite len_abc.
    apply str_getitem_mod.
    + unfold len. rewrite wiring_length. fold k. lia.
    + unfold len. rewrite wiring_length. fold k.
      by rewrite Z.mod_small by lia.
  - apply wiring_elem_of. by eapply list_elem_of_lookup_2.
  - unfold rotor_backward.
    rewrite (str_index_lookup rotor d (Z.to_nat k) wiring_NoDup Hd). simpl.
    rewrite Z2Nat.id by lia. apply str_getitem_mod.
    + rewrite len_abc. lia.
    + rewrite len_abc. unfold k. rewrite Zminus_mod_idemp_l.
      replace (Z.of_nat i + rotorpos - rotorpos) with (Z.of_nat i) by lia.
      rewrite Z.mod_small by lia. by rewrite Nat2Z.id.
Qed.

Lemma rotor_backward_forward (rotorpos : Z) (d : N) :
  offset_ok rotorpos → d ∈ abc →
  ∃ c, rotor_backward rotor rotorpos d = Ok c ∧ c ∈ abc ∧
       rotor_forward rotor rotorpos c = Ok d.
Proof using rotor_wiring.
  unfold offset_ok. rewrite len_abc. intros Hoff Hd.
  apply wiring_elem_of in Hd.
  destruct (str_index_elem_of rotor d Hd) as (j & Hidx & Hj).
  pose proof (lookup_lt_Some _ _ _ Hj) as Hlt. rewrite wiring_length in Hlt.
  set (k := (Z.of_nat j - rotorpos) `mod` 26).
  assert (0 ≤ k < 26) as Hk by (apply Z.mod_pos_bound; lia).
  destruct (lookup_lt_is_Some_2 abc (Z.to_nat k)) as [c Hc].
  { rewrite abc_length. lia. }
  exists c. split; [|split].
  - unfold rotor_backward. rewrite Hidx. simpl. apply str_getitem_mod.
    + rewrite len_abc. lia.
    + by rewrite len_abc.
  - by eapply list_elem_of_lookup_2.
  - unfold rotor_forward.
    rewrite (str_index_lookup abc c (Z.to_nat k) abc_NoDup Hc). simpl.
    rewrite Z2Nat.id by lia. rewrite len_abc. apply str_getitem_mod.
    + unfold len. rewrite wiring_length.
      pose proof (Z.mod_pos_bound (k + rotorpos) 26). lia.
    + unfold len. rewrite wiring_length. rewrite Zmod_mod.
      unfold k. rewrite Zplus_mod_idemp_l.
      replace (Z.of_nat j - rotorpos + rotorpos) with (Z.of_nat j) by lia.
      rewrite Z.mod_small by lia. by rewrite Nat2Z.id.
Qed.
End rotor.

(** ** The reflector *)

Lemma reflector_checked : forallb reflector_ok abc = true.
Proof. by vm_compute. Qed.

Lemma reflector_spec (x : N) :
  x ∈ abc →
  ∃ y, reflector !! x = Some y ∧ y ≠ x ∧ y ∈ abc ∧ reflector !! y = Some x.
Proof.
  intros Hx. apply list_elem_of_In in Hx.
  pose proof (proj1 (forallb_forall _ _) reflector_checked x Hx) as Hok.
  unfold reflector_ok in Hok. destruct (reflector !! x) as [y|]; [|done].
  apply andb_prop in Hok as [Hok H3]. apply andb_prop in Hok as [H1 H2].
  exists y. split; [done|].
  apply bool_decide_eq_true in H1, H3. apply str_in_true in H2. done.
Qed.

(** ** The plugboard *)

Lemma plugboard_ok_empty : plugboard_ok ∅.
Proof. intros a b H. by rewrite lookup_empty in H. Qed.

Lemma plug_plug (p : gmap N N) (x : N) :
  plugboard_ok p → plug p (plug p x) = x.
Proof.
  intros Hp. unfold plug at 2. destruct (p !! x) as [y|] eqn:Hx.
  - unfold plug. by rewrite (proj1 (Hp x y Hx)).
  - unfold plug. by rewrite Hx.
Qed.

Lemma plug_abc (p : gmap N N) (x : N) :
  plugboard_ok p → x ∈ abc → plug p x ∈ abc.
Proof.
  intros Hp Hx. unfold plug. destruct (p !! x) as [y|] eqn:Hy; [|done].
  by destruct (Hp x y Hy).
Qed.

Lemma pairs_ind (P : list N → Prop) :
  P [] → (∀ a, P [a]) → (∀ a b l, P l → P (a :: b :: l)) → ∀ l, P l.
Proof.
  intros H0 H1 H2 l. cut (P l ∧ ∀ a, P (a :: l)); [tauto|].
  induction l as [|b l [IH1 IH2]]; [by split|].
  split; [apply IH2|]. intros a. by apply H2.
Qed.

Lemma check_symbols_Ok (spec : list N) (tmppbl : gset N) :
  Forall (λ c, c ∈ abc) spec → NoDup spec → (∀ c, c ∈ spec → c ∉ tmppbl) →
  check_symbols spec tmppbl = Ok tt.
Proof.
  revert tmppbl. induction spec as [|i rest IH]; intros seen Habc Hnd Hseen.
  - done.
  - apply Forall_cons in Habc as [Hi Habc]. apply NoDup_cons in Hnd as [Hni Hnd].
    simpl. rewrite (proj2 (str_in_true i abc) Hi). simpl.
    rewrite bool_decide_eq_false_2 by (apply Hseen; left).
    apply IH; [done..|]. intros c Hc. rewrite elem_of_union, elem_of_singleton.
    intros [->|Hin]; [done|]. apply (Hseen c); [by right|done].
Qed.

(** The converse: a specification that passes the first loop consists of
    distinct alphabet letters, none of them seen before. *)
Lemma check_symbols_inv (spec : list N) (tmppbl : gset N) :
  check_symbols spec tmppbl = Ok tt →
  Forall (λ c, c ∈ abc) spec ∧ NoDup spec ∧ (∀ c, c ∈ spec → c ∉ tmppbl).
Proof.
  revert tmppbl. induction spec as [|i rest IH]; intros seen Hok.
  - split; [constructor|]. split; [constructor|]. intros c Hc. inversion Hc.
  - simpl in Hok. destruct (str_in i abc) eqn:Hi; [|done]. simpl in Hok.
    destruct (bool_decide (i ∈ seen)) eqn:Hs; [done|].
    apply bool_decide_eq_false in Hs. apply str_in_true in Hi.
    destruct (IH _ Hok) as (Habc & Hnd & Hseen).
    split; [by constructor|]. split.
    + constructor; [|done]. intros Hin. apply (Hseen i Hin).
      apply elem_of_union. left. by apply elem_of_singleton.
    + intros c [->|Hc]%elem_of_cons; [done|].
      intros Hcs. apply (Hseen c Hc). apply elem_of_union. by right.
Qed.

Lemma make_pairs_spec (spec : list N) :
  ∀ pb : gmap N N,
    Forall (λ c, c ∈ abc) spec → NoDup spec →
    (∀ c, c ∈ spec → pb !! c = None) → plugboard_ok pb →
    plugboard_ok (make_pairs spec pb) ∧
    (∀ x, x ∉ spec → make_pairs spec pb !! x = pb !! x) ∧
    (∀ k a b, spec !! (2 * k)%nat = Some a → spec !! (2 * k + 1)%nat = Some b →
              make_pairs spec pb !! a = Some b ∧
              make_pairs spec pb !! b = Some a).
Proof.
  induction spec as [|a|a b rest IH] using pairs_ind;
    intros pb Habc Hnd Hfresh Hok.
  - split; [done|]. split; [done|]. intros k a b Ha. by destruct k.
  - split; [done|]. split; [done|]. intros k a' b' _ Hb.
    by destruct k as [|[|k]]; simplify_eq/=.
  - apply Forall_cons in Habc as [Ha Habc]. apply Forall_cons in Habc as [Hb Habc].
    apply NoDup_cons in Hnd as [Hna Hnd]. apply NoDup_cons in Hnd as [Hnb Hnd].
    assert (a ≠ b) as Hab by (intros ->; apply Hna; left).
    assert (a ∉ rest) as Har by (intros ?; apply Hna; by right).
    assert (pb !! a = None) as Hpa by (apply Hfresh; left).
    assert (pb !! b = None) as Hpb by (apply Hfresh; right; left).
    set (pb' := <[b := a]> (<[a := b]> pb)).
    assert (pb' !! a = Some b) as Hla.
    { unfold pb'. rewrite lookup_insert_ne by done. apply lookup_insert_eq. }
    assert (pb' !! b = Some a) as Hlb by apply lookup_insert_eq.
    assert (∀ x, x ≠ a → x ≠ b → pb' !! x = pb !! x) as Hlo.
    { intros x Hxa Hxb. unfold pb'. by rewrite !lookup_insert_ne. }
    destruct (IH pb') as (IHok & IHout & IHpair); [done..| | |].
    { intros c Hc. rewrite Hlo; [apply Hfresh; by do 2 right|..]; congruence. }
    { intros x y Hxy. destruct (decide (x = b)) as [->|Hxb].
      { rewrite Hlb in Hxy. by simplify_eq. }
      destruct (decide (x = a)) as [->|Hxa].
      { rewrite Hla in Hxy. by simplify_eq. }
      rewrite Hlo in Hxy by done. destruct (Hok x y Hxy) as [Hyx Hy].
      split; [|done]. rewrite Hlo; [done|congruence..]. }
    cbn [make_pairs]. fold pb'. split; [done|]. split.
    + intros x Hx. rewrite IHout by (intros ?; apply Hx; by do 2 right).
      apply Hlo; intros ->; apply Hx; [left|right; left].
    + intros k a' b' Ha' Hb'. destruct k as [|k].
      * simpl in Ha', Hb'. simplify_eq. by rewrite !IHout.
      * replace (2 * S k)%nat with (S (S (2 * k))) in Ha' by lia.
        replace (2 * S k + 1)%nat with (S (S (2 * k + 1))) in Hb' by lia.
        apply (IHpair k); [exact Ha'|exact Hb'].
Qed.

Lemma plugboard_Ok (spec : list N) :
  well_formed_spec spec → _plugboard spec = Ok (make_pairs spec ∅).
Proof.
  intros (Heven & Habc & Hnd). unfold _plugboard, len.
  replace (Z.of_nat (length spec) `mod` 2) with 0.
  2:{ change 2 with (Z.of_nat 2). rewrite <- Nat2Z.inj_mod. lia. }
  simpl. case_bool_decide as Hnil; [by subst|].
  rewrite check_symbols_Ok; [done..|]. intros c _. apply not_elem_of_empty.
Qed.

(** Whatever [_plugboard] returns is a plugboard the engine can use. *)
Lemma plugboard_result_ok (spec : list N) (p : gmap N N) :
  _plugboard spec = Ok p → plugboard_ok p.
Proof.
  unfold _plugboard. destruct (negb _); [done|].
  case_bool_decide; [intros [= <-]; apply plugboard_ok_empty|].
  simpl. destruct (check_symbols spec ∅) as [[]|e] eqn:Hcheck; [|done].
  simpl. intros [= <-]. apply check_symbols_inv in Hcheck as (Habc & Hnd & _).
  apply make_pairs_spec; [done..| |apply plugboard_ok_empty].
  intros c _. apply lookup_empty.
Qed.

(** ** One letter through the machine *)

Lemma bind_Ok_l {A B} (f : A → result B) (a : A) : Ok a ≫= f = f a.
Proof. reflexivity. Qed.

(** At fixed offsets the letter transform is total on the alphabet, stays
    inside it, and undoes itself. *)
Lemma encipher_involutive (rotor_selection : list N * list N * list N)
    (p : gmap N N) (pos : Z * Z * Z) (x : N) :
  wirings rotor_selection → plugboard_ok p → offsets_ok pos → x ∈ abc →
  ∃ y, encipher rotor_selection p pos x = Ok y ∧ y ∈ abc ∧
       encipher rotor_selection p pos y = Ok x.
Proof.
  destruct rotor_selection as [[r1 r2] r3], pos as [[p1 p2] p3].
  intros (W1 & W2 & W3) Hp (O1 & O2 & O3) Hx.
  pose proof (plug_abc p x Hp Hx) as Hx0.
  destruct (rotor_forward_backward r1 W1 p1 _ O1 Hx0) as (x1 & F1 & Hx1 & B1).
  destruct (rotor_forward_backward r2 W2 p2 _ O2 Hx1) as (x2 & F2 & Hx2 & B2).
  destruct (rotor_forward_backward r3 W3 p3 _ O3 Hx2) as (x3 & F3 & Hx3 & B3).
  destruct (reflector_spec x3 Hx3) as (x4 & R34 & _ & Hx4 & R43).
  destruct (rotor_backward_forward r3 W3 p3 _ O3 Hx4) as (x5 & B3' & Hx5 & F3').
  destruct (rotor_backward_forward r2 W2 p2 _ O2 Hx5) as (x6 & B2' & Hx6 & F2').
  destruct (rotor_backward_forward r1 W1 p1 _ O1 Hx6) as (x7 & B1' & Hx7 & F1').
  exists (plug p x7). split; [|split].
  - unfold encipher, dict_getitem.
    rewrite F1, bind_Ok_l, F2, bind_Ok_l, F3, bind_Ok_l, R34, bind_Ok_l.
    by rewrite B3', bind_Ok_l, B2', bind_Ok_l, B1', bind_Ok_l.
  - by apply plug_abc.
  - unfold encipher, dict_getitem. rewrite (plug_plug p x7 Hp).
    rewrite F1', bind_Ok_l, F2', bind_Ok_l, F3', bind_Ok_l, R43, bind_Ok_l.
    rewrite B3, bind_Ok_l, B2, bind_Ok_l, B1, bind_Ok_l.
    by rewrite (plug_plug p x Hp).
Qed.

(** ** Stepping *)

Lemma advance_ok (pos : Z * Z * Z) : offsets_ok pos → offsets_ok (advance pos).
Proof.
  destruct pos as [[p1 p2] p3]. unfold offsets_ok, offset_ok, advance.
  rewrite len_abc. intros (H1 & H2 & H3).
  destruct (Z.geb_spec (p1 + 1) 26); destruct (Z.geb_spec (p2 + 1) 26);
    destruct (Z.geb_spec p2 26); destruct (Z.geb_spec (p3 + 1) 26);
    destruct (Z.geb_spec p3 26); lia.
Qed.

Lemma iter_advance_ok (n : nat) (pos : Z * Z * Z) :
  offsets_ok pos → offsets_ok (Nat.iter n advance pos).
Proof.
  intros Hpos. induction n as [|n IH]; [done|].
  change (Nat.iter (S n) advance pos) with (advance (Nat.iter n advance pos)).
  by apply advance_ok.
Qed.

Lemma of_counter_counter (pos : Z * Z * Z) :
  offsets_ok pos → of_counter (counter pos) = pos.
Proof.
  destruct pos as [[p1 p2] p3]. unfold offsets_ok, offset_ok, of_counter, counter.
  rewrite len_abc. intros (H1 & H2 & H3).
  assert ((p1 + 26 * p2 + 676 * p3) `mod` 26 = p1) as ->.
  { symmetry. apply (Z.mod_unique_pos _ _ (p2 + 26 * p3)); lia. }
  assert ((p1 + 26 * p2 + 676 * p3) / 26 = p2 + 26 * p3) as ->.
  { symmetry. apply (Z.div_unique_pos _ _ _ p1); lia. }
  assert ((p2 + 26 * p3) `mod` 26 = p2) as ->.
  { symmetry. apply (Z.mod_unique_pos _ _ p3); lia. }
  assert ((p1 + 26 * p2 + 676 * p3) / 676 = p3) as ->.
  { symmetry. apply (Z.div_unique_pos _ _ _ (p1 + 26 * p2)); lia. }
  by rewrite Z.mod_small by lia.
Qed.

Lemma counter_advance (pos : Z * Z * Z) :
  offsets_ok pos → counter (advance pos) = (counter pos + 1) `mod` 17576.
Proof.
  destruct pos as [[p1 p2] p3]. unfold offsets_ok, offset_ok, advance, counter.
  rewrite len_abc. intros (H1 & H2 & H3).
  destruct (Z.geb_spec (p1 + 1) 26); destruct (Z.geb_spec (p2 + 1) 26);
    destruct (Z.geb_spec p2 26); destruct (Z.geb_spec (p3 + 1) 26);
    destruct (Z.geb_spec p3 26); try lia.
  all: first [ rewrite Z.mod_small by lia; lia
             | apply (Z.mod_unique_pos _ _ 1); lia ].
Qed.

Lemma counter_iter_advance (n : nat) (pos : Z * Z * Z) :
  offsets_ok pos →
  counter (Nat.iter n advance pos) = (counter pos + Z.of_nat n) `mod` 17576.
Proof.
  intros Hpos. induction n as [|n IH].
  - simpl. rewrite Z.add_0_r, Z.mod_small; [done|].
    destruct pos as [[p1 p2] p3]. unfold offsets_ok, offset_ok in Hpos.
    rewrite len_abc in Hpos. unfold counter. lia.
  - change (Nat.iter (S n) advance pos) with (advance (Nat.iter n advance pos)).
    rewrite counter_advance by by apply iter_advance_ok.
    rewrite IH, Zplus_mod_idemp_l. f_equal. lia.
Qed.

Lemma iter_advance (n : nat) (pos : Z * Z * Z) :
  offsets_ok pos →
  Nat.iter n advance pos
  = of_counter ((counter pos + Z.of_nat n) `mod` 17576).
Proof.
  intros Hpos. rewrite <- counter_iter_advance by done.
  symmetry. apply of_counter_counter. by apply iter_advance_ok.
Qed.

(** ** Upper-casing *)

Lemma elem_of_latin1 (c : N) : (c < 256)%N → c ∈ latin1.
Proof.
  intros Hc. apply list_elem_of_fmap. exists (N.to_nat c).
  split; [by rewrite N2Nat.id|]. apply elem_of_seq. lia.
Qed.

Lemma case_lookup_Some (c : N) (table : list (N * list N)) (v : list N) :
  case_lookup c table = Some v → (c, v) ∈ table.
Proof.
  induction table as [|[k w] rest IH]; [done|]. simpl.
  destruct (N.eqb_spec c k) as [->|_].
  - intros [= ->]. left.
  - intros H. right. by apply IH.
Qed.

Lemma upper_char_image_checked :
  forallb (λ e, forallb (λ d, bool_decide (upper_fixed d)) e.2) upper_table
  = true.
Proof. by vm_compute. Qed.

(** Every character that upper-casing produces is left alone by
    upper-casing. *)
Lemma upper_char_image (c d : N) : d ∈ upper_char c → upper_fixed d.
Proof.
  unfold upper_char at 1.
  destruct (case_lookup c upper_table) as [v|] eqn:Hc.
  - intros Hd. apply case_lookup_Some, list_elem_of_In in Hc.
    pose proof (proj1 (forallb_forall _ _) upper_char_image_checked _ Hc) as H.
    apply list_elem_of_In in Hd.
    by apply (proj1 (forallb_forall _ _) H d), bool_decide_eq_true in Hd.
  - intros ->%list_elem_of_singleton. unfold upper_fixed, upper_char.
    by rewrite Hc.
Qed.

Lemma upper_is_fixed (s : list N) : Forall upper_fixed (upper s).
Proof.
  apply Forall_forall. intros d Hd. unfold upper in Hd.
  apply list_elem_of_bind in Hd as (c & Hd & _). by eapply upper_char_image.
Qed.

Lemma upper_of_fixed (s : list N) : Forall upper_fixed s → upper s = s.
Proof.
  induction 1 as [|c s Hc _ IH]; [done|].
  unfold upper in *. rewrite bind_cons, IH. unfold upper_fixed in Hc.
  by rewrite Hc.
Qed.

Lemma upper_idempotent (s : list N) : upper (upper s) = upper s.
Proof. apply upper_of_fixed, upper_is_fixed. Qed.

Lemma abc_upper_fixed (c : N) : c ∈ abc → upper_fixed c.
Proof.
  intros Hc. apply list_elem_of_In in Hc.
  assert (forallb (λ c, bool_decide (upper_fixed c)) abc = true) as H
    by by vm_compute.
  by apply (proj1 (forallb_forall _ _) H c), bool_decide_eq_true in Hc.
Qed.

(** ** The main loop *)

Lemma enigma_loop_acc rotor_selection (p : gmap N N) (text : list N) :
  ∀ pos acc,
    enigma_loop rotor_selection p text pos acc
    = '(pos', out) ← enigma_loop rotor_selection p text pos [];
      Ok (pos', acc ++ out).
Proof.
  induction text as [|symbol rest IH]; intros pos acc.
  - simpl. by rewrite app_nil_r.
  - cbn [enigma_loop]. destruct (str_in symbol abc).
    + destruct (encipher rotor_selection p pos symbol) as [y|e]; [|done].
      rewrite !bind_Ok_l, (IH _ (acc ++ [y])), (IH _ ([] ++ [y])).
      destruct (enigma_loop rotor_selection p rest (advance pos) [])
        as [[pos' out]|e]; [|done].
      rewrite !bind_Ok_l. by rewrite <- app_assoc.
    + rewrite (IH _ (acc ++ [symbol])), (IH _ ([] ++ [symbol])).
      destruct (enigma_loop rotor_selection p rest pos [])
        as [[pos' out]|e]; [|done].
      rewrite !bind_Ok_l. by rewrite <- app_assoc.
Qed.

Lemma enigma_loop_letter rotor_selection (p : gmap N N) symbol y rest pos :
  symbol ∈ abc → encipher rotor_selection p pos symbol = Ok y →
  enigma_loop rotor_selection p (symbol :: rest) pos []
  = '(pos', out) ← enigma_loop rotor_selection p rest (advance pos) [];
    Ok (pos', y :: out).
Proof.
  intros Hs Hy. cbn [enigma_loop].
  rewrite (proj2 (str_in_true _ _) Hs), Hy, bind_Ok_l.
  by rewrite enigma_loop_acc.
Qed.

Lemma enigma_loop_other rotor_selection (p : gmap N N) symbol rest pos :
  symbol ∉ abc →
  enigma_loop rotor_selection p (symbol :: rest) pos []
  = '(pos', out) ← enigma_loop rotor_selection p rest pos [];
    Ok (pos', symbol :: out).
Proof.
  intros Hs. cbn [enigma_loop].
  rewrite (proj2 (str_in_false _ _) Hs). by rewrite enigma_loop_acc.
Qed.

(** The loop on a validated configuration: it finishes, its output
    matches the text position by position, the offsets have advanced once
    per letter, and the same loop on the output gives the text back. *)
Lemma enigma_loop_reciprocal rotor_selection (p : gmap N N) (text : list N) :
  wirings rotor_selection → plugboard_ok p →
  ∀ pos, offsets_ok pos →
    ∃ out,
      enigma_loop rotor_selection p text pos []
      = Ok (Nat.iter (length (letters text)) advance pos, out) ∧
      enciphered text out ∧
      enigma_loop rotor_selection p out pos []
      = Ok (Nat.iter (length (letters text)) advance pos, text).
Proof.
  intros Hw Hp. induction text as [|symbol rest IH]; intros pos Hpos.
  - exists []. split; [done|]. split; [constructor|done].
  - destruct (decide (symbol ∈ abc)) as [Hs|Hs].
    + destruct (encipher_involutive rotor_selection p pos symbol Hw Hp Hpos Hs)
        as (y & Hy & Hyabc & Hback).
      destruct (IH (advance pos) (advance_ok pos Hpos)) as (out & Hrun & Hrel & Hrev).
      exists (y :: out).
      assert (length (letters (symbol :: rest)) = S (length (letters rest))) as ->.
      { unfold letters. by rewrite filter_cons_True. }
      rewrite Nat.iter_succ_r. split; [|split].
      * by rewrite (enigma_loop_letter _ _ _ y), Hrun.
      * constructor; [|done]. by rewrite (proj2 (str_in_true _ _) Hs).
      * by rewrite (enigma_loop_letter _ _ _ symbol), Hrev.
    + destruct (IH pos Hpos) as (out & Hrun & Hrel & Hrev).
      exists (symbol :: out).
      assert (length (letters (symbol :: rest)) = length (letters rest)) as ->.
      { unfold letters. by rewrite filter_cons_False. }
      split; [|split].
      * by rewrite enigma_loop_other, Hrun.
      * constructor; [|done]. by rewrite (proj2 (str_in_false _ _) Hs).
      * by rewrite enigma_loop_other, Hrev.
Qed.

Lemma enciphered_length (text out : list N) :
  enciphered text out → length out = length text.
Proof. intros H. symmetry. by eapply Forall2_length. Qed.

Lemma enciphered_upper_fixed (text out : list N) :
  enciphered text out → Forall upper_fixed text → Forall upper_fixed out.
Proof.
  induction 1 as [|c d text out Hcd _ IH]; [done|].
  intros [Hc Htext]%Forall_cons. constructor; [|by apply IH].
  destruct (str_in c abc); [by apply abc_upper_fixed|by subst].
Qed.

(** ** [len(set(...))] *)

Section unique.
Context `{Countable A}.

Lemma size_list_to_set_le (l : list A) :
  (size (list_to_set l : gset A) ≤ length l)%nat.
Proof.
  induction l as [|x l IH]; [done|].
  rewrite list_to_set_cons, size_union_alt, size_singleton. simpl.
  apply le_n_S. etrans; [|exact IH]. apply subseteq_size, subseteq_difference_l.
  done.
Qed.

Lemma size_list_to_set_NoDup (l : list A) :
  size (list_to_set l : gset A) = length l ↔ NoDup l.
Proof.
  split; [|apply size_list_to_set].
  induction l as [|x l IH]; [constructor|].
  rewrite list_to_set_cons. simpl. intros Hsize.
  destruct (decide (x ∈ l)) as [Hin|Hout].
  - pose proof (size_list_to_set_le l) as Hle.
    rewrite (subseteq_union_1_L {[x]} (list_to_set l)) in Hsize; [lia|].
    apply singleton_subseteq_l. by apply elem_of_list_to_set.
  - constructor; [done|]. apply IH.
    rewrite size_union, size_singleton in Hsize; [lia|].
    apply disjoint_singleton_l. by rewrite elem_of_list_to_set.
Qed.
End unique.

(** ** The validator *)

Lemma unique_rotors_3 rotsel : unique_rotors rotsel = 3%nat ↔ pairwise_distinct rotsel.
Proof. destruct rotsel as [[r1 r2] r3]. apply (size_list_to_set_NoDup [r1; r2; r3]). Qed.

Lemma unique_rotors_le rotsel : (unique_rotors rotsel ≤ 3)%nat.
Proof. destruct rotsel as [[r1 r2] r3]. apply (size_list_to_set_le [r1; r2; r3]). Qed.

Lemma range_test (rotorpos : Z) :
  (0 <? rotorpos) && (rotorpos <=? len abc) = bool_decide (in_range rotorpos).
Proof.
  rewrite len_abc. unfold in_range.
  destruct (Z.ltb_spec 0 rotorpos), (Z.leb_spec rotorpos 26); simpl; symmetry;
    first [ apply bool_decide_eq_true; lia | apply bool_decide_eq_false; lia ].
Qed.

(** The validator, check by check. *)
Lemma validator_cases rotpos rotsel (pb : list N) :
  _validator rotpos rotsel pb =
    if decide (unique_rotors rotsel < 3)%nat then
      Raise (DuplicateRotor (unique_rotors rotsel))
    else match first_out_of_range rotpos with
         | Some (s, p) => Raise (PositionOutOfRange s p)
         | None => pbdict ← _plugboard pb; Ok (rotpos, rotsel, pbdict)
         end.
Proof.
  destruct rotsel as [[r1 r2] r3], rotpos as [[p1 p2] p3].
  unfold _validator, unique_rotors, first_out_of_range.
  destruct (Nat.ltb_spec (size (list_to_set [r1; r2; r3] : gset (list N))) 3).
  { by rewrite decide_True. }
  rewrite decide_False by lia. rewrite !range_test.
  destruct (decide (in_range p1)); [|by rewrite bool_decide_eq_false_2].
  rewrite bool_decide_eq_true_2 by done. simpl.
  destruct (decide (in_range p2)); [|by rewrite bool_decide_eq_false_2].
  rewrite bool_decide_eq_true_2 by done. simpl.
  destruct (decide (in_range p3)); [|by rewrite bool_decide_eq_false_2].
  by rewrite bool_decide_eq_true_2.
Qed.

Lemma first_out_of_range_None rotpos :
  first_out_of_range rotpos = None ↔ positions_in_range rotpos.
Proof.
  destruct rotpos as [[p1 p2] p3]. unfold first_out_of_range, positions_in_range.
  repeat case_decide; split; try done; tauto.
Qed.

Lemma validator_Ok rotpos rotsel (pb : list N) v :
  _validator rotpos rotsel pb = Ok v ↔
  pairwise_distinct rotsel ∧ positions_in_range rotpos ∧
  ∃ pbdict, _plugboard pb = Ok pbdict ∧ v = (rotpos, rotsel, pbdict).
Proof.
  rewrite validator_cases, <- unique_rotors_3, <- first_out_of_range_None.
  pose proof (unique_rotors_le rotsel).
  case_decide.
  { split; [done|]. intros (? & _). lia. }
  destruct (first_out_of_range rotpos) as [[s p]|].
  { split; [done|]. by intros (_ & ? & _). }
  destruct (_plugboard pb) as [pbdict|e].
  - rewrite bind_Ok_l. split.
    + intros [= <-]. split; [lia|]. split; [done|]. by exists pbdict.
    + intros (_ & _ & pbdict' & [= <-] & ->). done.
  - split; [done|]. by intros (_ & _ & pbdict' & ? & _).
Qed.

(** ** The exceptions can be told apart *)

Lemma first_char_DuplicateRotor n : first_char (DuplicateRotor n) = Some (chr "P").
Proof. reflexivity. Qed.
Lemma first_char_OddPlugboardLength n :
  first_char (OddPlugboardLength n) = Some (chr "O").
Proof. reflexivity. Qed.
Lemma first_char_InvalidPlugboardSymbol i :
  first_char (InvalidPlugboardSymbol i) = Some (chr "'").
Proof. reflexivity. Qed.
Lemma first_char_DuplicatePlugboardSymbol i :
  first_char (DuplicatePlugboardSymbol i) = Some (chr "D").
Proof. reflexivity. Qed.
Lemma first_char_PositionOutOfRange s p :
  first_char (PositionOutOfRange s p)
  = Some (match s with First => chr "F" | Second => chr "S" | Third => chr "T" end).
Proof. by destruct s. Qed.

Lemma reports_signature f e :
  reports f e → (exn_type e, first_char e) = signature f.
Proof. destruct f as [|[]| | |]; intros [x ->]; reflexivity. Qed.

Lemma signature_inj f1 f2 : signature f1 = signature f2 → f1 = f2.
Proof. destruct f1 as [|[]| | |], f2 as [|[]| | |]; by vm_compute. Qed.

Lemma reports_inj f1 f2 e : reports f1 e → reports f2 e → f1 = f2.
Proof.
  intros H1%reports_signature H2%reports_signature.
  apply signature_inj. congruence.
Qed.

Lemma check_symbols_Raise (spec : list N) (tmppbl : gset N) e :
  check_symbols spec tmppbl = Raise e →
  (∃ i, e = InvalidPlugboardSymbol i ∧ i ∈ spec ∧ i ∉ abc) ∨
  (∃ i, e = DuplicatePlugboardSymbol i ∧ i ∈ spec ∧
        (i ∈ tmppbl ∨ ¬ NoDup spec)).
Proof.
  revert tmppbl. induction spec as [|i rest IH]; intros seen; [done|].
  simpl. destruct (str_in i abc) eqn:Hi; simpl.
  - case_bool_decide as Hseen.
    { intros [= <-]. right. exists i. split; [done|]. split; [left|by left]. }
    intros [(j & -> & Hj & Hnot)|(j & -> & Hj & Hdup)]%IH.
    + left. exists j. split; [done|]. split; [by right|done].
    + right. exists j. split; [done|]. split; [by right|].
      destruct Hdup as [[->%elem_of_singleton|Hin]%elem_of_union|Hnd].
      * right. by intros [? _]%NoDup_cons.
      * by left.
      * right. by intros [_ ?]%NoDup_cons.
  - intros [= <-]. left. exists i. split; [done|]. split; [left|].
    by apply str_in_false.
Qed.

(** An error of the plugboard builder and its cause. *)
Lemma plugboard_Raise (spec : list N) e :
  _plugboard spec = Raise e →
  (e = OddPlugboardLength (len spec) ∧ len spec `mod` 2 ≠ 0) ∨
  (len spec `mod` 2 = 0 ∧
   ∃ i, e = InvalidPlugboardSymbol i ∧ i ∈ spec ∧ i ∉ abc) ∨
  (len spec `mod` 2 = 0 ∧
   ∃ i, e = DuplicatePlugboardSymbol i ∧ i ∈ spec ∧ ¬ NoDup spec).
Proof.
  unfold _plugboard. destruct (Z.eqb_spec (len spec `mod` 2) 0) as [Heven|Hodd].
  2:{ intros [= <-]. by left. }
  simpl. case_bool_decide; [done|].
  destruct (check_symbols spec ∅) as [[]|e'] eqn:Hcheck; [done|].
  intros [= <-]. right.
  apply check_symbols_Raise in Hcheck
    as [(i & -> & Hi & Hnot)|(i & -> & Hi & [Hin|Hnd])].
  - left. split; [done|]. by exists i.
  - by apply not_elem_of_empty in Hin.
  - right. split; [done|]. by exists i.
Qed.

Lemma plugboard_Raise_reports (spec : list N) e :
  _plugboard spec = Raise e →
  reports FOddPlugboardLength e ∨ reports FInvalidPlugboardSymbol e ∨
  reports FDuplicatePlugboardSymbol e.
Proof.
  intros [[-> _]|[(_ & i & -> & _)|(_ & i & -> & _)]]%plugboard_Raise.
  - left. by eexists.
  - right. left. by eexists.
  - right. right. by eexists.
Qed.

Lemma validator_Raise rotpos rotsel (pb : list N) e :
  _validator rotpos rotsel pb = Raise e → ∃ f, reports f e.
Proof.
  rewrite validator_cases. case_decide.
  { intros [= <-]. exists FDuplicateRotor. by eexists. }
  destruct (first_out_of_range rotpos) as [[s p]|].
  { intros [= <-]. exists (FPositionOutOfRange s). by eexists. }
  destruct (_plugboard pb) as [pbdict|e'] eqn:Hpb; [done|].
  intros [= <-]. apply plugboard_Raise_reports in Hpb as [?|[?|?]]; eauto.
Qed.

(** ** Configurations *)

(** All nine wirings of the catalog are reorderings of the alphabet. *)
Lemma catalog_wirings : Forall wiring rotor_list.
Proof. apply (bool_decide_unpack _). by vm_compute. Qed.

Lemma from_catalog_wirings rotsel : from_catalog rotsel → wirings rotsel.
Proof.
  destruct rotsel as [[r1 r2] r3]. intros (H1 & H2 & H3).
  pose proof (proj1 (Forall_forall _ _) catalog_wirings) as Hcat.
  repeat split; by apply Hcat.
Qed.

Lemma well_formed_spec_upper (spec : list N) :
  well_formed_spec spec → upper spec = spec.
Proof.
  intros (_ & Habc & _). apply upper_of_fixed.
  eapply Forall_impl; [exact Habc|]. apply abc_upper_fixed.
Qed.

Lemma start_offsets_ok rotpos :
  positions_in_range rotpos → offsets_ok (start_offsets rotpos).
Proof.
  destruct rotpos as [[p1 p2] p3].
  unfold positions_in_range, in_range, start_offsets, offsets_ok, offset_ok.
  rewrite len_abc. lia.
Qed.

Lemma valid_configuration_validator rotpos rotsel plugb :
  valid_configuration rotpos rotsel plugb →
  _validator rotpos rotsel (upper plugb)
  = Ok (rotpos, rotsel, make_pairs (upper plugb) ∅).
Proof.
  intros (Hpos & Hsel & _ & Hpb). apply validator_Ok.
  split; [done|]. split; [done|]. eexists. split; [|done]. by apply plugboard_Ok.
Qed.

(** What [enigma] does once the validator has accepted the configuration
    and the wirings are reorderings of the alphabet. *)
Lemma enigma_validated text rotpos rotsel plugb v :
  _validator rotpos rotsel (upper plugb) = Ok v → wirings rotsel →
  ∃ out,
    enigma text rotpos rotsel plugb = Ok out ∧
    enciphered (upper text) out ∧
    enigma_final_offsets text rotpos rotsel plugb
    = Ok (Nat.iter (length (letters (upper text))) advance
            (start_offsets rotpos)) ∧
    enigma out rotpos rotsel plugb = Ok (upper text).
Proof.
  intros Hv Hw.
  pose proof (proj1 (validator_Ok _ _ _ _) Hv)
    as (_ & Hpos & pbdict & Hpb & ->).
  apply plugboard_result_ok in Hpb.
  destruct (enigma_loop_reciprocal rotsel pbdict (upper text) Hw Hpb
              (start_offsets rotpos) (start_offsets_ok _ Hpos))
    as (out & Hrun & Hrel & Hrev).
  exists out. unfold enigma, enigma_final_offsets.
  rewrite Hv, !bind_Ok_l. cbv beta iota. rewrite Hrun.
  split; [done|]. split; [done|]. split; [done|].
  rewrite (upper_of_fixed out).
  2:{ eapply enciphered_upper_fixed; [exact Hrel|apply upper_is_fixed]. }
  by rewrite Hrev.
Qed.

(** ** The source's own examples *)

(** The doctest of [_validator]. *)
Example validator_doctest :
  _validator (1, 1, 1) (rotor1, rotor2, rotor3) (lit "POLAND")
  = Ok ((1, 1, 1),
        (lit "EGZWVONAHDCLFQMSIPJBYUKXTR", lit "FOBHMDKEXQNRAULPGSJVTYICZW",
         lit "ZJXESIUQLHAVRMDOYGTNFWPBKC"),
        list_to_map
          [ (chr "P", chr "O"); (chr "O", chr "P"); (chr "L", chr "A");
            (chr "A", chr "L"); (chr "N", chr "D"); (chr "D", chr "N") ]).
Proof. vm_compute. reflexivity. Qed.

(** The letter H at dial positions (1, 1, 1) with the default rotors and
    no plugboard: rotor 1 gives A, rotor 2 gives F, rotor 3 gives I, the
    reflector V, and the way back L, O, F. *)
Example enigma_H :
  enigma (lit "H") (1, 1, 1) (rotor1, rotor2, rotor3) [] = Ok (lit "F").
Proof. vm_compute. reflexivity. Qed.

(** Upper-casing outside ASCII: the dotless i becomes I, the fi ligature
    becomes FI, a small Greek alpha its capital; so the plugboard
    specification made of the dotless i and a small a is the pair I, A. *)
Example upper_outside_ascii :
  upper [0x131; 0x61; 0xFB01; 0x3B1]%N = lit "IAFI" ++ [0x391%N] ∧
  _plugboard (upper [0x131; 0x61]%N) = Ok (make_pairs (lit "IA") ∅).
Proof. split; vm_compute; reflexivity. Qed.

(** * The claims *)

(** C1, reciprocity.  For every valid configuration (positions in 1..26,
    three pairwise different catalog wirings, well-formed plugboard
    specification) and every text, [enigma] succeeds, and [enigma] on its
    output with the same configuration returns the upper-cased text,
    symbol by symbol. *)
Theorem enigma_reciprocal text rotpos rotsel plugb :
  valid_configuration rotpos rotsel plugb →
  ∃ out, enigma text rotpos rotsel plugb = Ok out ∧
         enigma out rotpos rotsel plugb = Ok (upper text).
Proof.
  intros Hc.
  destruct (enigma_validated text rotpos rotsel plugb _
              (valid_configuration_validator _ _ _ Hc))
    as (out & Hrun & _ & _ & Hback).
  { apply from_catalog_wirings, Hc. }
  by exists out.
Qed.

Lemma enigma_reciprocal_witness :
  valid_configuration (3, 26, 1) (rotor5, rotor1, rotor9) (lit "pictures") ∧
  ∃ out,
    enigma (lit "Attack at dawn, 05:30!") (3, 26, 1) (rotor5, rotor1, rotor9)
      (lit "pictures") = Ok out ∧
    enigma out (3, 26, 1) (rotor5, rotor1, rotor9) (lit "pictures")
    = Ok (upper (lit "Attack at dawn, 05:30!")).
Proof.
  assert (valid_configuration (3, 26, 1) (rotor5, rotor1, rotor9)
            (lit "pictures")) as Hc
    by (apply (bool_decide_unpack _); vm_compute; exact I).
  split; [exact Hc|]. exact (enigma_reciprocal _ _ _ _ Hc).
Defined.

Lemma ascii_single (c : N) : (c < 128)%N → single c.
Proof.
  intros Hc.
  assert (forallb (λ c, bool_decide ((c < 128)%N → single c)) latin1 = true)
    as Hall by by vm_compute.
  assert (c ∈ latin1) as Hin by (apply elem_of_latin1; lia).
  apply list_elem_of_In in Hin.
  pose proof (proj1 (forallb_forall _ _) Hall c Hin) as H.
  by apply bool_decide_eq_true in H; apply H.
Qed.

Lemma upper_single_length (text : list N) :
  Forall single text → length (upper text) = length text.
Proof.
  induction 1 as [|c text Hc _ IH]; [done|].
  unfold upper in *. rewrite bind_cons, length_app, IH.
  unfold single in Hc. by rewrite Hc.
Qed.

Lemma upper_single_lookup (text : list N) (i : nat) (c d : N) :
  Forall single text → text !! i = Some c → upper_char c = [d] →
  upper text !! i = Some d.
Proof.
  intros Hs. revert i. induction Hs as [|c' text Hc' _ IH]; intros i Hi Hd.
  - by rewrite lookup_nil in Hi.
  - unfold upper in *. rewrite bind_cons. unfold single in Hc'.
    destruct (upper_char c') as [|d' [|]] eqn:Hup; try done.
    destruct i as [|i]; simpl in *.
    + injection Hi as ->. rewrite Hup in Hd. by injection Hd as ->.
    + by apply IH.
Qed.

Lemma enciphered_lookup (text out : list N) (i : nat) (c : N) :
  enciphered text out → text !! i = Some c →
  if str_in c abc then ∃ d, out !! i = Some d ∧ d ∈ abc
  else out !! i = Some c.
Proof.
  intros Hrel Hc.
  destruct (Forall2_lookup_l _ _ _ _ _ Hrel Hc) as (d & Hd & Hcd).
  destruct (str_in c abc); [by exists d|by subst].
Qed.

(** C2 as the code has it.  [enigma] upper-cases the text first, and the
    output is laid out like the upper-cased text: it has its length, every
    character of it that is not an alphabet letter is at its index
    unchanged, every index where it has an alphabet letter holds an
    alphabet letter, and the offsets end where one step per alphabet
    letter takes them, so other characters do not advance them.  When
    upper-casing keeps each character of the text a single character, as
    it does for every ASCII text, this is the layout of the text itself:
    the output has the length of the text, and index [i] holds a letter
    if the upper-cased [i]-th character is a letter and holds that
    upper-cased character otherwise. *)
Theorem enigma_preserves_positions text rotpos rotsel plugb :
  valid_configuration rotpos rotsel plugb →
  ∃ out,
    enigma text rotpos rotsel plugb = Ok out ∧
    length out = length (upper text) ∧
    (∀ i c, upper text !! i = Some c → c ∉ abc → out !! i = Some c) ∧
    (∀ i c, upper text !! i = Some c → c ∈ abc →
            ∃ d, out !! i = Some d ∧ d ∈ abc) ∧
    enigma_final_offsets text rotpos rotsel plugb
    = Ok (Nat.iter (length (letters (upper text))) advance
            (start_offsets rotpos)) ∧
    (Forall single text →
     length out = length text ∧
     ∀ i c d, text !! i = Some c → upper_char c = [d] →
              if str_in d abc then ∃ d', out !! i = Some d' ∧ d' ∈ abc
              else out !! i = Some d).
Proof.
  intros Hc.
  destruct (enigma_validated text rotpos rotsel plugb _
              (valid_configuration_validator _ _ _ Hc))
    as (out & Hrun & Hrel & Hfinal & _).
  { apply from_catalog_wirings, Hc. }
  exists out. split; [done|]. split; [by apply enciphered_length|].
  split; [|split; [|split; [done|]]].
  - intros i c Hi Hnot. pose proof (enciphered_lookup _ _ i c Hrel Hi) as H.
    by rewrite (proj2 (str_in_false _ _) Hnot) in H.
  - intros i c Hi Hin. pose proof (enciphered_lookup _ _ i c Hrel Hi) as H.
    by rewrite (proj2 (str_in_true _ _) Hin) in H.
  - intros Hs. split.
    + by rewrite (enciphered_length _ _ Hrel), upper_single_length.
    + intros i c d Hi Hd. apply (enciphered_lookup _ _ i d Hrel).
      by eapply upper_single_lookup.
Qed.

Lemma enigma_preserves_positions_witness :
  valid_configuration (1, 1, 1) (rotor1, rotor2, rotor3) [] ∧
  ∃ out,
    enigma (lit "Hello, World! 123") (1, 1, 1) (rotor1, rotor2, rotor3) []
    = Ok out ∧
    length out = length (upper (lit "Hello, World! 123")).
Proof.
  assert (valid_configuration (1, 1, 1) (rotor1, rotor2, rotor3) []) as Hc
    by (apply (bool_decide_unpack _); vm_compute; exact I).
  split; [exact Hc|].
  destruct (enigma_preserves_positions (lit "Hello, World! 123") _ _ _ Hc)
    as (out & Hrun & Hlen & _).
  exists out. by split.
Defined.

(** C2 as stated fails: the text consisting of the one character U+00DF
    (sharp s), which is not an alphabet letter, upper-cases to "SS", and
    [enigma] returns two letters for it. *)
Lemma enigma_length_counterexample :
  valid_configuration (1, 1, 1) (rotor1, rotor2, rotor3) [] ∧
  (sharp_s ∉ abc) ∧
  ∃ out,
    enigma [sharp_s] (1, 1, 1) (rotor1, rotor2, rotor3) [] = Ok out ∧
    length out = 2%nat ∧ length out ≠ length [sharp_s] ∧
    out !! 0%nat ≠ Some sharp_s.
Proof.
  split; [apply (bool_decide_unpack _); vm_compute; exact I|].
  split; [apply (bool_decide_unpack _); vm_compute; exact I|].
  eexists. split; [vm_compute; reflexivity|]. split; [reflexivity|].
  split; [simpl; lia|]. simpl. discriminate.
Qed.

(** C3 as the code has it.  When the validator accepts the configuration
    and the three wirings are reorderings of the alphabet, as the nine of
    the catalog are, [enigma] raises nothing on any text: it returns a
    string with one symbol for each character of the upper-cased text, and
    at every offset triple the loop can hold every lookup of the letter
    transform succeeds. *)
Theorem enigma_total text rotpos rotsel plugb rotpos' rotsel' pbdict :
  _validator rotpos rotsel (upper plugb) = Ok (rotpos', rotsel', pbdict) →
  wirings rotsel →
  (∃ out, enigma text rotpos rotsel plugb = Ok out ∧
          length out = length (upper text)) ∧
  (∀ pos symbol, offsets_ok pos → symbol ∈ abc →
                 ∃ y, encipher rotsel' pbdict pos symbol = Ok y).
Proof.
  intros Hv Hw. split.
  - destruct (enigma_validated text rotpos rotsel plugb _ Hv Hw)
      as (out & Hrun & Hrel & _).
    exists out. split; [done|]. by apply enciphered_length.
  - pose proof (proj1 (validator_Ok _ _ _ _) Hv) as (_ & _ & p & Hpb & Heq).
    injection Heq as -> -> ->. apply plugboard_result_ok in Hpb.
    intros pos symbol Hpos Hs.
    destruct (encipher_involutive rotsel p pos symbol Hw Hpb Hpos Hs)
      as (y & Hy & _).
    by exists y.
Qed.

Lemma enigma_total_witness :
  ∃ out,
    enigma (lit "Enigma 1942") (26, 1, 13) (rotor7, rotor8, rotor4) (lit "ab")
    = Ok out ∧
    length out = length (upper (lit "Enigma 1942")).
Proof.
  refine (proj1 (enigma_total (lit "Enigma 1942") (26, 1, 13)
                   (rotor7, rotor8, rotor4) (lit "ab")
                   (26, 1, 13) (rotor7, rotor8, rotor4)
                   (make_pairs (lit "AB") ∅) _ _)).
  - vm_compute. reflexivity.
  - apply (bool_decide_unpack _). vm_compute. exact I.
Defined.

(** C3 as stated fails: the validator accepts any three different strings
    as wirings, and with the wirings "ABC", "DEF", "GHI" the first rotor
    lookup for the letter D raises [IndexError].  Also, one input
    character can give two output symbols (U+00DF). *)
Lemma enigma_not_total_counterexample :
  _validator (1, 1, 1) (lit "ABC", lit "DEF", lit "GHI") (upper [])
  = Ok ((1, 1, 1), (lit "ABC", lit "DEF", lit "GHI"), ∅) ∧
  enigma (lit "D") (1, 1, 1) (lit "ABC", lit "DEF", lit "GHI") []
  = Raise (mk_exn IndexError (lit "string index out of range")) ∧
  ∃ out, enigma [sharp_s] (1, 1, 1) (rotor1, rotor2, rotor3) [] = Ok out ∧
         length out = 2%nat.
Proof.
  split; [vm_compute; reflexivity|]. split; [vm_compute; reflexivity|].
  eexists. split; [vm_compute; reflexivity|reflexivity].
Qed.

Lemma Raise_type {A} (e1 e2 : exn) :
  @Raise A e1 = Raise e2 → exn_type e1 = exn_type e2.
Proof. by intros [= ->]. Qed.

Lemma Raise_inj {A} (e1 e2 : exn) : @Raise A e1 = Raise e2 → e1 = e2.
Proof. by intros [= ->]. Qed.

Lemma reports_class_Exception f e :
  reports f e → exn_type e = ValueError → ∃ s, f = FPositionOutOfRange s.
Proof.
  intros Hf%reports_signature Hty. rewrite Hty in Hf.
  destruct f as [|s| | |]; try discriminate. by exists s.
Qed.

(** C4 as the code has it.  The checks run in order and the first that
    fails decides the error.  The validator fails with the duplicate-rotor
    error exactly when the selection has fewer than three different
    wirings.  It fails with the out-of-range error for a slot exactly when
    the selection has three different wirings and that slot is the first
    whose position is outside 1..26.  When both checks pass, an error of
    the plugboard builder is the validator's error.  It succeeds exactly
    when both checks pass and the builder succeeds, and then returns the
    position and the selection unchanged with the plugboard built. *)
Theorem validator_outcome rotpos rotsel (pb : list N) :
  ((∃ n, _validator rotpos rotsel pb = Raise (DuplicateRotor n)) ↔
   (unique_rotors rotsel < 3)%nat) ∧
  (∀ s, (∃ p, _validator rotpos rotsel pb = Raise (PositionOutOfRange s p)) ↔
        unique_rotors rotsel = 3%nat ∧
        ∃ p, first_out_of_range rotpos = Some (s, p)) ∧
  (∀ e, unique_rotors rotsel = 3%nat → positions_in_range rotpos →
        _plugboard pb = Raise e → _validator rotpos rotsel pb = Raise e) ∧
  (∀ v, _validator rotpos rotsel pb = Ok v ↔
        unique_rotors rotsel = 3%nat ∧ positions_in_range rotpos ∧
        ∃ pbdict, _plugboard pb = Ok pbdict ∧ v = (rotpos, rotsel, pbdict)).
Proof.
  pose proof (unique_rotors_le rotsel) as Hle.
  split; [|split; [|split]].
  - rewrite validator_cases. case_decide as Hdup.
    { split; [done|]. intros _. by eexists. }
    split; [|lia]. intros [n Hn]. exfalso.
    destruct (first_out_of_range rotpos) as [[s p]|].
    { by apply Raise_type in Hn. }
    destruct (_plugboard pb) as [pbdict|e] eqn:Hpb; [done|].
    apply Raise_inj in Hn as ->.
    assert (reports FDuplicateRotor (DuplicateRotor n)) as Hr by by eexists.
    apply plugboard_Raise_reports in Hpb as [H|[H|H]];
      by pose proof (reports_inj _ _ _ Hr H).
  - intros s. rewrite validator_cases. case_decide as Hdup.
    { split; [|lia]. intros [p Hp]. by apply Raise_type in Hp. }
    assert (unique_rotors rotsel = 3%nat) as Hthree by lia.
    destruct (first_out_of_range rotpos) as [[s' p']|].
    + split.
      * intros [p Hp]. apply Raise_inj in Hp. split; [done|]. exists p'.
        assert (FPositionOutOfRange s' = FPositionOutOfRange s) as [= ->];
          [|done].
        apply (reports_inj _ _ (PositionOutOfRange s' p')); [by eexists|].
        rewrite Hp. by eexists.
      * intros (_ & p & [= -> ->]). by exists p.
    + split; [|by intros (_ & p & ?)]. intros [p Hp]. exfalso.
      destruct (_plugboard pb) as [pbdict|e] eqn:Hpb; [done|].
      apply Raise_inj in Hp as ->.
      apply plugboard_Raise_reports in Hpb as [H|[H|H]];
        apply reports_class_Exception in H as [? ?]; by try destruct s.
  - intros e Hthree Hpos Hpb. rewrite validator_cases.
    rewrite decide_False by lia.
    rewrite (proj2 (first_out_of_range_None rotpos) Hpos). by rewrite Hpb.
  - intros v. rewrite unique_rotors_3. apply validator_Ok.
Qed.

Lemma validator_outcome_witness :
  _validator (1, 1, 1) (rotor1, rotor2, rotor3) (lit "ABC")
  = Raise (OddPlugboardLength 3).
Proof.
  apply (proj1 (proj2 (proj2 (validator_outcome (1, 1, 1)
           (rotor1, rotor2, rotor3) (lit "ABC"))))).
  - vm_compute. reflexivity.
  - vm_compute. intuition discriminate.
  - vm_compute. reflexivity.
Defined.

(** C4 as stated fails: with a repeated wiring and a position outside
    1..26 the validator reports the repeated wiring, not the position. *)
Lemma validator_counterexample :
  ¬ positions_in_range (0, 1, 1) ∧
  _validator (0, 1, 1) (rotor1, rotor1, rotor2) [] = Raise (DuplicateRotor 2) ∧
  ¬ ∃ s p, _validator (0, 1, 1) (rotor1, rotor1, rotor2) []
           = Raise (PositionOutOfRange s p).
Proof.
  assert (_validator (0, 1, 1) (rotor1, rotor1, rotor2) []
          = Raise (DuplicateRotor 2)) as Hv by (vm_compute; reflexivity).
  split; [|split; [exact Hv|]].
  - unfold positions_in_range, in_range. lia.
  - intros (s & p & Hp). rewrite Hv in Hp. by apply Raise_type in Hp.
Qed.

(** C5, what the code does.  The length test is on the specification as
    given, and the specification with its spaces goes on to the symbol
    check: "AB CD" is rejected as odd although it has four characters
    once the spaces are removed, and forms two valid pairs; with two
    spaces it is rejected for the space; and " A" passes the length test
    although one character is left once the space is removed. *)
Theorem plugboard_keeps_spaces :
  _plugboard (lit "AB CD") = Raise (OddPlugboardLength 5) ∧
  remove_spaces (lit "AB CD") = lit "ABCD" ∧
  _plugboard (lit "ABCD") = Ok (make_pairs (lit "ABCD") ∅) ∧
  _plugboard (lit "AB  CD") = Raise (InvalidPlugboardSymbol (chr " ")) ∧
  _plugboard (lit " A") = Raise (InvalidPlugboardSymbol (chr " ")) ∧
  enigma (lit "HELLO") (1, 1, 1) (rotor1, rotor2, rotor3) (lit "AB CD")
  = Raise (OddPlugboardLength 5).
Proof. repeat split; vm_compute; reflexivity. Qed.

(** C6, plugboard involution and identity.  For a well-formed
    specification the builder succeeds; in the mapping it returns partners
    are mutual, the two characters of each pair of the specification are
    each other's partner, a symbol outside the specification maps to
    itself, and applying the plugboard twice gives the symbol back.  The
    empty specification gives the empty plugboard, which maps every symbol
    to itself. *)
Theorem plugboard_involution :
  (∀ spec, well_formed_spec spec →
     ∃ p, _plugboard spec = Ok p ∧
          (∀ a b, p !! a = Some b → p !! b = Some a) ∧
          (∀ k a b, spec !! (2 * k)%nat = Some a →
                    spec !! (2 * k + 1)%nat = Some b →
                    plug p a = b ∧ plug p b = a) ∧
          (∀ x, x ∉ spec → plug p x = x) ∧
          (∀ x, plug p (plug p x) = x)) ∧
  _plugboard [] = Ok ∅ ∧ (∀ x, plug ∅ x = x).
Proof.
  split; [|split; [done|]].
  - intros spec Hwf. exists (make_pairs spec ∅).
    split; [by apply plugboard_Ok|]. destruct Hwf as (_ & Habc & Hnd).
    destruct (make_pairs_spec spec ∅ Habc Hnd) as (Hok & Hout & Hpair).
    { intros c _. apply lookup_empty. }
    { apply plugboard_ok_empty. }
    split; [|split; [|split]].
    + intros a b Hab. by destruct (Hok a b Hab).
    + intros k a b Ha Hb. destruct (Hpair k a b Ha Hb) as [Hab Hba].
      unfold plug. by rewrite Hab, Hba.
    + intros x Hx. unfold plug. by rewrite Hout, lookup_empty.
    + intros x. by apply plug_plug.
  - intros x. unfold plug. by rewrite lookup_empty.
Qed.

Lemma plugboard_involution_witness :
  well_formed_spec (lit "AB") ∧
  ∃ p, _plugboard (lit "AB") = Ok p ∧
       plug p (chr "A") = chr "B" ∧ plug p (chr "B") = chr "A" ∧
       plug p (chr "C") = chr "C".
Proof.
  assert (well_formed_spec (lit "AB")) as Hwf
    by (apply (bool_decide_unpack _); vm_compute; exact I).
  split; [exact Hwf|].
  destruct (proj1 plugboard_involution (lit "AB") Hwf)
    as (p & Hp & _ & Hpair & Hout & _).
  exists p. split; [exact Hp|].
  destruct (Hpair 0%nat (chr "A") (chr "B") eq_refl eq_refl) as [Hab Hba].
  split; [exact Hab|]. split; [exact Hba|].
  apply Hout. apply (bool_decide_unpack _). vm_compute. exact I.
Defined.

(** C7, distinguishable errors.  Every error of the validator reports one
    of the five causes (the out-of-range one with its slot); no exception
    reports two causes, so the caller can tell any two causes apart from
    the exception alone: the [ValueError]s are the out-of-range errors,
    and the [Exception]s differ in their messages; an error of the
    plugboard builder reports the cause that is there (an odd length, a
    character outside the alphabet, a repeated character); and [enigma]
    returns the validator's error whatever the text is, so no character
    is processed first.  The last six lines show the error each cause
    gives. *)
Theorem validation_errors_distinguishable :
  (∀ rotpos rotsel (pb : list N) e,
     _validator rotpos rotsel pb = Raise e → ∃ f, reports f e) ∧
  (∀ f1 f2 e, reports f1 e → reports f2 e → f1 = f2) ∧
  (∀ (spec : list N) e,
     _plugboard spec = Raise e →
     (reports FOddPlugboardLength e → len spec `mod` 2 ≠ 0) ∧
     (reports FInvalidPlugboardSymbol e → ∃ i, i ∈ spec ∧ i ∉ abc) ∧
     (reports FDuplicatePlugboardSymbol e → ¬ NoDup spec)) ∧
  (∀ text rotpos rotsel plugb e,
     _validator rotpos rotsel (upper plugb) = Raise e →
     enigma text rotpos rotsel plugb = Raise e) ∧
  _validator (1, 1, 1) (rotor1, rotor1, rotor2) [] = Raise (DuplicateRotor 2) ∧
  _validator (0, 1, 1) (rotor1, rotor2, rotor3) []
  = Raise (PositionOutOfRange First 0) ∧
  _validator (1, 1, 27) (rotor1, rotor2, rotor3) []
  = Raise (PositionOutOfRange Third 27) ∧
  _validator (1, 1, 1) (rotor1, rotor2, rotor3) (lit "ABC")
  = Raise (OddPlugboardLength 3) ∧
  _validator (1, 1, 1) (rotor1, rotor2, rotor3) (lit "AA")
  = Raise (DuplicatePlugboardSymbol (chr "A")) ∧
  _validator (1, 1, 1) (rotor1, rotor2, rotor3) (lit "A1")
  = Raise (InvalidPlugboardSymbol (chr "1")).
Proof.
  split; [exact validator_Raise|]. split; [exact reports_inj|].
  split; [|split].
  - intros spec e Hpb.
    assert (∀ f, reports f e → ∀ f', reports f' e → f' = f) as Hcause.
    { intros f Hf f' Hf'. by apply (reports_inj _ _ e). }
    apply plugboard_Raise in Hpb
      as [[-> Hodd]|[(_ & i & -> & Hi & Hnot)|(_ & i & -> & Hi & Hnd)]].
    + specialize (Hcause FOddPlugboardLength (ex_intro _ _ eq_refl)).
      repeat split; [done|intros H%Hcause; discriminate..].
    + specialize (Hcause FInvalidPlugboardSymbol (ex_intro _ _ eq_refl)).
      repeat split; [intros H%Hcause; discriminate|by exists i|].
      intros H%Hcause. discriminate.
    + specialize (Hcause FDuplicatePlugboardSymbol (ex_intro _ _ eq_refl)).
      repeat split; [intros H%Hcause; discriminate..|done].
  - intros text rotpos rotsel plugb e Hv. unfold enigma. by rewrite Hv.
  - repeat split; vm_compute; reflexivity.
Qed.

Lemma validation_errors_distinguishable_witness :
  enigma (lit "HELLO") (1, 1, 27) (rotor1, rotor2, rotor3) (lit "ab")
  = Raise (PositionOutOfRange Third 27).
Proof.
  apply (proj1 (proj2 (proj2 (proj2 validation_errors_distinguishable)))).
  vm_compute. reflexivity.
Defined.

(** C8, the reflector.  The table has an entry for each of the 26
    alphabet symbols and for nothing else, and for every alphabet symbol
    [x] the entry [reflector[x]] is different from [x] and
    [reflector[reflector[x]]] is [x]. *)
Theorem reflector_involution :
  dom reflector = list_to_set abc ∧ size reflector = 26%nat ∧
  ∀ x, x ∈ abc →
       ∃ y, reflector !! x = Some y ∧ y ≠ x ∧ reflector !! y = Some x.
Proof.
  split; [by vm_compute|]. split; [by vm_compute|].
  intros x Hx. destruct (reflector_spec x Hx) as (y & H1 & H2 & _ & H3).
  by exists y.
Qed.

Lemma reflector_involution_witness :
  ∃ y, reflector !! chr "A" = Some y ∧ y ≠ chr "A" ∧
       reflector !! y = Some (chr "A").
Proof.
  apply (proj2 (proj2 reflector_involution)).
  apply (bool_decide_unpack _). vm_compute. exact I.
Defined.

(** C9, odometer stepping.  The offsets the loop ends with are the start
    offsets advanced once per alphabet letter of the upper-cased text; a
    letter is enciphered at the offsets before its step, and the rest of
    the text sees the advanced ones; one step adds one to the first
    offset and carries into the second and the third at 25, the third
    going back to 0 without a carry; 26 steps from (0, k, m) give first
    offset 0 and second offset k+1 mod 26; 676 steps leave the first two
    offsets as they were and add one, mod 26, to the third. *)
Theorem odometer_stepping :
  (∀ text rotpos rotsel plugb,
     valid_configuration rotpos rotsel plugb →
     enigma_final_offsets text rotpos rotsel plugb
     = Ok (Nat.iter (length (letters (upper text))) advance
             (start_offsets rotpos))) ∧
  (∀ rotsel (p : gmap N N) symbol rest pos y,
     symbol ∈ abc → encipher rotsel p pos symbol = Ok y →
     enigma_loop rotsel p (symbol :: rest) pos []
     = '(pos', out) ← enigma_loop rotsel p rest (advance pos) [];
       Ok (pos', y :: out)) ∧
  (∀ p1 p2 p3,
     offsets_ok (p1, p2, p3) →
     advance (p1, p2, p3)
     = if decide (p1 < 25) then (p1 + 1, p2, p3)
       else if decide (p2 < 25) then (0, p2 + 1, p3)
       else if decide (p3 < 25) then (0, 0, p3 + 1)
       else (0, 0, 0)) ∧
  (∀ k m,
     offset_ok k → offset_ok m →
     Nat.iter 26 advance (0, k, m)
     = (0, (k + 1) `mod` 26, if decide (k = 25) then (m + 1) `mod` 26 else m)) ∧
  (∀ p1 p2 p3,
     offsets_ok (p1, p2, p3) →
     Nat.iter 676 advance (p1, p2, p3) = (p1, p2, (p3 + 1) `mod` 26)).
Proof.
  split; [|split; [|split; [|split]]].
  - intros text rotpos rotsel plugb Hc.
    destruct (enigma_validated text rotpos rotsel plugb _
                (valid_configuration_validator _ _ _ Hc))
      as (out & _ & _ & Hfinal & _); [|done].
    apply from_catalog_wirings, Hc.
  - intros. by apply enigma_loop_letter.
  - intros p1 p2 p3. unfold offsets_ok, offset_ok, advance. rewrite len_abc.
    intros (H1 & H2 & H3).
    destruct (Z.geb_spec (p1 + 1) 26); destruct (Z.geb_spec (p2 + 1) 26);
      destruct (Z.geb_spec p2 26); destruct (Z.geb_spec (p3 + 1) 26);
      destruct (Z.geb_spec p3 26); repeat case_decide; try lia; done.
  - intros k m Hk Hm. unfold offset_ok in Hk, Hm. rewrite len_abc in Hk, Hm.
    assert (offsets_ok (0, k, m)) as Hpos.
    { unfold offsets_ok, offset_ok. rewrite len_abc. lia. }
    rewrite (iter_advance 26 _ Hpos).
    set (m' := if decide (k = 25) then (m + 1) `mod` 26 else m).
    assert (0 ≤ (k + 1) `mod` 26 < 26 ∧ 0 ≤ m' < 26 ∧
            (counter (0, k, m) + Z.of_nat 26) `mod` 17576
            = counter (0, (k + 1) `mod` 26, m')) as (Hk' & Hm' & ->).
    { unfold counter, m'. case_decide; Z.div_mod_to_equations; lia. }
    apply of_counter_counter. unfold offsets_ok, offset_ok. rewrite len_abc. lia.
  - intros p1 p2 p3 Hpos. rewrite (iter_advance 676 _ Hpos).
    unfold offsets_ok, offset_ok in Hpos. rewrite len_abc in Hpos.
    assert (0 ≤ (p3 + 1) `mod` 26 < 26 ∧
            (counter (p1, p2, p3) + Z.of_nat 676) `mod` 17576
            = counter (p1, p2, (p3 + 1) `mod` 26)) as (Hp3 & ->).
    { unfold counter. Z.div_mod_to_equations. lia. }
    apply of_counter_counter. unfold offsets_ok, offset_ok. rewrite len_abc. lia.
Qed.

Lemma odometer_stepping_witness :
  Nat.iter 26 advance (0, 25, 7) = (0, 0, 8) ∧
  Nat.iter 676 advance (3, 4, 25) = (3, 4, 0).
Proof.
  split.
  - refine (proj1 (proj2 (proj2 (proj2 odometer_stepping))) 25 7 _ _);
      vm_compute; intuition discriminate.
  - refine (proj2 (proj2 (proj2 (proj2 odometer_stepping))) 3 4 25 _).
    vm_compute. intuition discriminate.
Defined.

(** C10, the plugboard specification is upper-cased at the entry point.
    [enigma] gives the same result for a specification and for its
    upper-cased form; "pictures" is rejected by [_plugboard] for its
    first letter, and accepted by [enigma], which hands "PICTURES" to the
    validator. *)
Theorem plugboard_spec_case_insensitive :
  (∀ text rotpos rotsel pb,
     enigma text rotpos rotsel pb = enigma text rotpos rotsel (upper pb)) ∧
  _plugboard (lit "pictures") = Raise (InvalidPlugboardSymbol (chr "p")) ∧
  upper (lit "pictures") = lit "PICTURES" ∧
  (∀ text rotpos rotsel,
     positions_in_range rotpos → pairwise_distinct rotsel →
     from_catalog rotsel →
     ∃ out, enigma text rotpos rotsel (lit "pictures") = Ok out ∧
            enigma text rotpos rotsel (lit "PICTURES") = Ok out).
Proof.
  split; [|split; [by vm_compute|split; [by vm_compute|]]].
  - intros text rotpos rotsel pb. unfold enigma. by rewrite upper_idempotent.
  - intros text rotpos rotsel Hpos Hsel Hcat.
    assert (valid_configuration rotpos rotsel (lit "pictures")) as Hc.
    { repeat split; try done; apply (bool_decide_unpack _); by vm_compute. }
    destruct (enigma_validated text rotpos rotsel (lit "pictures") _
                (valid_configuration_validator _ _ _ Hc))
      as (out & Hout & _); [by apply from_catalog_wirings|].
    exists out. split; [done|]. rewrite <- Hout. unfold enigma.
    by replace (upper (lit "PICTURES")) with (upper (lit "pictures"))
      by by vm_compute.
Qed.

Lemma plugboard_spec_case_insensitive_witness :
  ∃ out,
    enigma (lit "Hello") (1, 1, 1) (rotor1, rotor2, rotor3) (lit "pictures")
    = Ok out ∧
    enigma (lit "Hello") (1, 1, 1) (rotor1, rotor2, rotor3) (lit "PICTURES")
    = Ok out.
Proof.
  apply (proj2 (proj2 (proj2 plugboard_spec_case_insensitive))).
  - vm_compute. intuition discriminate.
  - apply (bool_decide_unpack _). vm_compute. exact I.
  - apply (bool_decide_unpack _). vm_compute. exact I.
Defined.

(** * Further properties of the code *)

(** ** More on [_plugboard] *)

Lemma even_length_tail (a b : N) (rest : list N) :
  (length (a :: b :: rest) `mod` 2 = 0)%nat → (length rest `mod` 2 = 0)%nat.
Proof.
  cbn [length]. replace (S (S (length rest))) with (length rest + 1 * 2)%nat by lia.
  by rewrite Nat.Div0.mod_add.
Qed.

(** Every entry of the dict comes from a pair of the specification, or
    was there before. *)
Lemma make_pairs_lookup (spec : list N) :
  ∀ (pb : gmap N N) x y,
    make_pairs spec pb !! x = Some y →
    pb !! x = Some y ∨
    ∃ k, (spec !! (2 * k)%nat = Some x ∧ spec !! (2 * k + 1)%nat = Some y) ∨
         (spec !! (2 * k)%nat = Some y ∧ spec !! (2 * k + 1)%nat = Some x).
Proof.
  induction spec as [|a|a b rest IH] using pairs_ind; intros pb x y Hxy;
    [by left..|].
  cbn [make_pairs] in Hxy. apply IH in Hxy as [Hxy|[k Hk]].
  - rewrite lookup_insert in Hxy. case_decide as Hb.
    { right. exists 0%nat. right. by simplify_eq. }
    rewrite lookup_insert in Hxy. case_decide as Ha.
    { right. exists 0%nat. left. by simplify_eq. }
    by left.
  - right. exists (S k).
    replace (2 * S k)%nat with (S (S (2 * k))) by lia.
    replace (2 * S k + 1)%nat with (S (S (2 * k + 1))) by lia.
    exact Hk.
Qed.

Lemma make_pairs_dom (spec : list N) :
  ∀ pb : gmap N N,
    (length spec `mod` 2 = 0)%nat →
    dom (make_pairs spec pb) = list_to_set spec ∪ dom pb.
Proof.
  induction spec as [|a|a b rest IH] using pairs_ind; intros pb Heven.
  - simpl. by rewrite (left_id_L ∅ (∪)).
  - done.
  - cbn [make_pairs]. rewrite IH by by eapply even_length_tail.
    rewrite !dom_insert_L, !list_to_set_cons. apply set_eq. intros x.
    rewrite !elem_of_union. tauto.
Qed.

Lemma plugboard_Ok_inv (spec : list N) (p : gmap N N) :
  _plugboard spec = Ok p → well_formed_spec spec ∧ p = make_pairs spec ∅.
Proof.
  unfold _plugboard, len.
  destruct (Z.eqb_spec (Z.of_nat (length spec) `mod` 2) 0) as [Heven|]; [|done].
  assert (length spec `mod` 2 = 0)%nat as Heven'.
  { change 2 with (Z.of_nat 2) in Heven. rewrite <- Nat2Z.inj_mod in Heven. lia. }
  simpl. case_bool_decide as Hnil.
  { intros [= <-]. subst spec. split; [|done].
    split; [done|]. split; constructor. }
  destruct (check_symbols spec ∅) as [[]|e] eqn:Hcheck; [|done].
  intros [= <-]. apply check_symbols_inv in Hcheck as (Habc & Hnd & _).
  done.
Qed.

(** X1.  [_plugboard] returns a dict exactly for the specifications that
    have an even number of characters, all of them alphabet letters, none
    of them twice; the dict is then the one the pairing loop builds.  So a
    specification with a lower-case letter, a digit, a space or a repeated
    letter never yields a plugboard. *)
Theorem plugboard_Ok_iff (spec : list N) (p : gmap N N) :
  _plugboard spec = Ok p ↔ well_formed_spec spec ∧ p = make_pairs spec ∅.
Proof.
  split; [apply plugboard_Ok_inv|]. intros [Hwf ->]. by apply plugboard_Ok.
Qed.

(** X2.  In a dict that [_plugboard] returns the keys are exactly the
    characters of the specification, one entry per character; no symbol
    is its own partner; both ends of an entry are alphabet letters; and
    every entry joins the two characters of one pair of the
    specification. *)
Theorem plugboard_entries (spec : list N) (p : gmap N N) :
  _plugboard spec = Ok p →
  dom p = list_to_set spec ∧ size p = length spec ∧
  ∀ a b, p !! a = Some b →
         a ≠ b ∧ a ∈ abc ∧ b ∈ abc ∧
         ∃ k, (spec !! (2 * k)%nat = Some a ∧ spec !! (2 * k + 1)%nat = Some b) ∨
              (spec !! (2 * k)%nat = Some b ∧ spec !! (2 * k + 1)%nat = Some a).
Proof.
  intros Hp. pose proof (plugboard_result_ok spec p Hp) as Hok.
  apply plugboard_Ok_inv in Hp as [(Heven & Habc & Hnd) ->].
  assert (dom (make_pairs spec ∅) = list_to_set spec) as Hdom.
  { rewrite make_pairs_dom by done. by rewrite dom_empty_L, (right_id_L ∅ (∪)). }
  split; [done|]. split.
  { rewrite <- size_dom, Hdom. by apply size_list_to_set. }
  intros a b Hab. destruct (Hok a b Hab) as [Hba Hb].
  destruct (Hok b a Hba) as [_ Ha].
  apply make_pairs_lookup in Hab as [Hab|[k Hk]];
    [by rewrite lookup_empty in Hab|].
  split; [|split; [done|split; [done|by exists k]]].
  intros ->. destruct Hk as [[H0 H1]|[H0 H1]];
    pose proof (NoDup_lookup _ _ _ _ Hnd H0 H1); lia.
Qed.

Lemma plugboard_entries_witness :
  ∃ p, _plugboard (lit "POLAND") = Ok p ∧ size p = 6%nat.
Proof.
  exists (make_pairs (lit "POLAND") ∅).
  assert (_plugboard (lit "POLAND") = Ok (make_pairs (lit "POLAND") ∅)) as Hp
    by (vm_compute; reflexivity).
  split; [exact Hp|].
  exact (proj1 (proj2 (plugboard_entries _ _ Hp))).
Defined.

Lemma check_symbols_prefix (pre rest : list N) :
  ∀ tmppbl : gset N,
    Forall (λ c, c ∈ abc) pre → NoDup pre → (∀ c, c ∈ pre → c ∉ tmppbl) →
    check_symbols (pre ++ rest) tmppbl
    = check_symbols rest (list_to_set pre ∪ tmppbl).
Proof.
  induction pre as [|i pre IH]; intros seen Habc Hnd Hseen.
  - simpl. by rewrite (left_id_L ∅ (∪)).
  - apply Forall_cons in Habc as [Hi Habc]. apply NoDup_cons in Hnd as [Hni Hnd].
    cbn [app check_symbols]. rewrite (proj2 (str_in_true i abc) Hi). cbn [negb].
    rewrite bool_decide_eq_false_2 by (apply Hseen; left).
    rewrite IH; [|done..|].
    + f_equal. rewrite list_to_set_cons. apply set_eq. intros x.
      rewrite !elem_of_union. tauto.
    + intros c Hc. rewrite elem_of_union, elem_of_singleton.
      intros [->|Hin]; [done|]. apply (Hseen c); [by right|done].
Qed.

(** X3.  In a specification of even length the first character that is
    not an alphabet letter, or that has occurred before, decides the
    error: after a prefix of different alphabet letters, a character
    outside the alphabet is reported as invalid, and an alphabet letter of
    the prefix is reported as a duplicate. *)
Theorem plugboard_first_offender (pre rest : list N) (i : N) :
  (length (pre ++ i :: rest) `mod` 2 = 0)%nat →
  Forall (λ c, c ∈ abc) pre → NoDup pre →
  (i ∉ abc → _plugboard (pre ++ i :: rest) = Raise (InvalidPlugboardSymbol i)) ∧
  (i ∈ abc → i ∈ pre →
   _plugboard (pre ++ i :: rest) = Raise (DuplicatePlugboardSymbol i)).
Proof.
  intros Heven Habc Hnd.
  assert (∀ r, (i ∉ abc → r = Raise (InvalidPlugboardSymbol i)) ∧
               (i ∈ abc → i ∈ pre → r = Raise (DuplicatePlugboardSymbol i)) →
               check_symbols (i :: rest) (list_to_set pre ∪ ∅) = r →
               (i ∉ abc → _plugboard (pre ++ i :: rest)
                          = Raise (InvalidPlugboardSymbol i)) ∧
               (i ∈ abc → i ∈ pre → _plugboard (pre ++ i :: rest)
                          = Raise (DuplicatePlugboardSymbol i))) as Hwrap.
  { intros r [Hr1 Hr2] Hcheck.
    assert (_plugboard (pre ++ i :: rest) = r ≫= λ _, Ok (make_pairs (pre ++ i :: rest) ∅)) as ->.
    { unfold _plugboard, len.
      replace (Z.of_nat (length (pre ++ i :: rest)) `mod` 2) with 0.
      2:{ change 2 with (Z.of_nat 2). rewrite <- Nat2Z.inj_mod. lia. }
      simpl. rewrite bool_decide_eq_false_2 by by destruct pre.
      rewrite check_symbols_prefix, Hcheck; [done..|].
      intros c _. apply not_elem_of_empty. }
    split; [intros H; by rewrite (Hr1 H)|intros H1 H2; by rewrite (Hr2 H1 H2)]. }
  eapply Hwrap; [|reflexivity]. cbn [check_symbols]. split.
  - intros Hi. by rewrite (proj2 (str_in_false i abc) Hi).
  - intros Hi Hpre. rewrite (proj2 (str_in_true i abc) Hi). cbn [negb].
    rewrite bool_decide_eq_true_2; [done|].
    apply elem_of_union. left. by apply elem_of_list_to_set.
Qed.

Lemma plugboard_first_offender_witness :
  _plugboard (lit "ABxA") = Raise (InvalidPlugboardSymbol (chr "x")) ∧
  _plugboard (lit "ABCA1!") = Raise (DuplicatePlugboardSymbol (chr "A")).
Proof.
  split.
  - refine (proj1 (plugboard_first_offender (lit "AB") (lit "A") (chr "x")
                     _ _ _) _).
    + reflexivity.
    + apply (bool_decide_unpack _). vm_compute. exact I.
    + apply (bool_decide_unpack _). vm_compute. exact I.
    + apply (bool_decide_unpack _). vm_compute. exact I.
  - refine (proj2 (plugboard_first_offender (lit "ABC") (lit "1!") (chr "A")
                     _ _ _) _ _).
    + reflexivity.
    + apply (bool_decide_unpack _). vm_compute. exact I.
    + apply (bool_decide_unpack _). vm_compute. exact I.
    + apply (bool_decide_unpack _). vm_compute. exact I.
    + apply (bool_decide_unpack _). vm_compute. exact I.
Defined.

(** ** More on the letter transform *)

Lemma str_getitem_elem_of (s : list N) (i : Z) (c : N) :
  str_getitem s i = Ok c → c ∈ s.
Proof.
  unfold str_getitem. destruct (_ <? 0); [done|].
  destruct (s !! _) as [d|] eqn:Hd; [|done].
  intros [= <-]. by eapply list_elem_of_lookup_2.
Qed.

Lemma rotor_backward_abc (rotor : list N) (rotorpos : Z) (symbol c : N) :
  rotor_backward rotor rotorpos symbol = Ok c → c ∈ abc.
Proof.
  unfold rotor_backward. destruct (str_index rotor symbol) as [i|]; [|done].
  rewrite bind_Ok_l. apply str_getitem_elem_of.
Qed.

(** Whatever the wirings are, a letter that comes out of the transform is
    an alphabet letter. *)
Lemma encipher_abc rotor_selection (p : gmap N N) pos (x y : N) :
  plugboard_ok p → encipher rotor_selection p pos x = Ok y → y ∈ abc.
Proof.
  destruct rotor_selection as [[r1 r2] r3], pos as [[p1 p2] p3].
  intros Hp. unfold encipher.
  destruct (rotor_forward r1 p1 _) as [x1|]; [rewrite bind_Ok_l|done].
  destruct (rotor_forward r2 p2 _) as [x2|]; [rewrite bind_Ok_l|done].
  destruct (rotor_forward r3 p3 _) as [x3|]; [rewrite bind_Ok_l|done].
  destruct (dict_getitem reflector _) as [x4|]; [rewrite bind_Ok_l|done].
  destruct (rotor_backward r3 p3 _) as [x5|]; [rewrite bind_Ok_l|done].
  destruct (rotor_backward r2 p2 _) as [x6|]; [rewrite bind_Ok_l|done].
  destruct (rotor_backward r1 p1 _) as [x7|] eqn:H7; [rewrite bind_Ok_l|done].
  intros [= <-]. apply plug_abc; [done|]. by eapply rotor_backward_abc.
Qed.

Lemma plug_inj (p : gmap N N) (x y : N) :
  plugboard_ok p → plug p x = plug p y → x = y.
Proof.
  intros Hp Hxy. rewrite <- (plug_plug p x Hp), <- (plug_plug p y Hp).
  by rewrite Hxy.
Qed.

Lemma encipher_no_fixed_point rotor_selection (p : gmap N N) pos (x y : N) :
  wirings rotor_selection → plugboard_ok p → offsets_ok pos → x ∈ abc →
  encipher rotor_selection p pos x = Ok y → y ≠ x.
Proof.
  destruct rotor_selection as [[r1 r2] r3], pos as [[p1 p2] p3].
  intros (W1 & W2 & W3) Hp (O1 & O2 & O3) Hx.
  pose proof (plug_abc p x Hp Hx) as Hx0.
  destruct (rotor_forward_backward r1 W1 p1 _ O1 Hx0) as (x1 & F1 & Hx1 & B1).
  destruct (rotor_forward_backward r2 W2 p2 _ O2 Hx1) as (x2 & F2 & Hx2 & B2).
  destruct (rotor_forward_backward r3 W3 p3 _ O3 Hx2) as (x3 & F3 & Hx3 & B3).
  destruct (reflector_spec x3 Hx3) as (x4 & R34 & Hne & Hx4 & R43).
  destruct (rotor_backward_forward r3 W3 p3 _ O3 Hx4) as (x5 & B3' & Hx5 & F3').
  destruct (rotor_backward_forward r2 W2 p2 _ O2 Hx5) as (x6 & B2' & Hx6 & F2').
  destruct (rotor_backward_forward r1 W1 p1 _ O1 Hx6) as (x7 & B1' & Hx7 & F1').
  unfold encipher, dict_getitem.
  rewrite F1, bind_Ok_l, F2, bind_Ok_l, F3, bind_Ok_l, R34, bind_Ok_l.
  rewrite B3', bind_Ok_l, B2', bind_Ok_l, B1', bind_Ok_l.
  intros [= <-] Hfix. apply Hne.
  assert (x7 = plug p x) as -> by (by rewrite <- Hfix, plug_plug).
  congruence.
Qed.

(** ** More on the main loop *)

Lemma enigma_loop_cons_inv rotor_selection (p : gmap N N) c rest pos pos' out :
  enigma_loop rotor_selection p (c :: rest) pos [] = Ok (pos', out) →
  (c ∈ abc ∧ ∃ y out',
     encipher rotor_selection p pos c = Ok y ∧
     enigma_loop rotor_selection p rest (advance pos) [] = Ok (pos', out') ∧
     out = y :: out') ∨
  ((c ∉ abc) ∧ ∃ out',
     enigma_loop rotor_selection p rest pos [] = Ok (pos', out') ∧
     out = c :: out').
Proof.
  destruct (decide (c ∈ abc)) as [Hc|Hc].
  - destruct (encipher rotor_selection p pos c) as [y|e] eqn:Hy.
    + rewrite (enigma_loop_letter _ _ _ y) by done.
      destruct (enigma_loop rotor_selection p rest (advance pos) [])
        as [[pos1 out1]|e]; [|done].
      rewrite bind_Ok_l. intros [= <- <-]. left. split; [done|]. by exists y, out1.
    + cbn [enigma_loop]. rewrite (proj2 (str_in_true _ _) Hc), Hy. done.
  - rewrite enigma_loop_other by done.
    destruct (enigma_loop rotor_selection p rest pos [])
      as [[pos1 out1]|e]; [|done].
    rewrite bind_Ok_l. intros [= <- <-]. right. split; [done|]. by exists out1.
Qed.

(** A run that finishes, whatever the wirings: the layout of the output,
    the offsets it ends with, and that these stay within 0..25. *)
Lemma enigma_loop_layout rotor_selection (p : gmap N N) (text : list N) :
  plugboard_ok p →
  ∀ pos pos' out,
    enigma_loop rotor_selection p text pos [] = Ok (pos', out) →
    enciphered text out ∧
    pos' = Nat.iter (length (letters text)) advance pos.
Proof.
  intros Hp. induction text as [|c rest IH]; intros pos pos' out Hrun.
  - injection Hrun as <- <-. split; [constructor|done].
  - apply enigma_loop_cons_inv in Hrun
      as [(Hc & y & out' & Hy & Hrest & ->)|(Hc & out' & Hrest & ->)].
    + destruct (IH _ _ _ Hrest) as [Hrel ->]. split.
      * constructor; [|done]. rewrite (proj2 (str_in_true _ _) Hc).
        by eapply encipher_abc.
      * unfold letters. rewrite filter_cons_True by done.
        cbn [length]. by rewrite Nat.iter_succ_r.
    + destruct (IH _ _ _ Hrest) as [Hrel ->]. split.
      * constructor; [|done]. by rewrite (proj2 (str_in_false _ _) Hc).
      * unfold letters. by rewrite filter_cons_False.
Qed.

Lemma enigma_loop_no_fixed_point rotor_selection (p : gmap N N) (text : list N) :
  wirings rotor_selection → plugboard_ok p →
  ∀ pos pos' out,
    offsets_ok pos →
    enigma_loop rotor_selection p text pos [] = Ok (pos', out) →
    Forall2 (λ c d, c ∈ abc → d ≠ c) text out.
Proof.
  intros Hw Hp. induction text as [|c rest IH]; intros pos pos' out Hpos Hrun.
  - injection Hrun as <- <-. constructor.
  - apply enigma_loop_cons_inv in Hrun
      as [(Hc & y & out' & Hy & Hrest & ->)|(Hc & out' & Hrest & ->)].
    + constructor.
      * intros _. by eapply encipher_no_fixed_point.
      * eapply IH; [|exact Hrest]. by apply advance_ok.
    + constructor; [done|]. by eapply IH.
Qed.

(** The loop on a text in two parts: the second part starts where the
    first one stopped. *)
Lemma enigma_loop_app rotor_selection (p : gmap N N) (t1 t2 : list N) :
  ∀ pos acc,
    enigma_loop rotor_selection p (t1 ++ t2) pos acc
    = '(pos1, out1) ← enigma_loop rotor_selection p t1 pos acc;
      enigma_loop rotor_selection p t2 pos1 out1.
Proof.
  induction t1 as [|c rest IH]; intros pos acc; [done|].
  cbn [app enigma_loop]. destruct (str_in c abc); [|apply IH].
  destruct (encipher rotor_selection p pos c) as [y|e]; [|done].
  rewrite !bind_Ok_l. apply IH.
Qed.

(** The loop on the letters alone gives the letters of the output. *)
Lemma enigma_loop_letters rotor_selection (p : gmap N N) (text : list N) :
  plugboard_ok p →
  ∀ pos pos' out,
    enigma_loop rotor_selection p text pos [] = Ok (pos', out) →
    enigma_loop rotor_selection p (letters text) pos [] = Ok (pos', letters out).
Proof.
  intros Hp. induction text as [|c rest IH]; intros pos pos' out Hrun.
  - by injection Hrun as <- <-.
  - apply enigma_loop_cons_inv in Hrun
      as [(Hc & y & out' & Hy & Hrest & ->)|(Hc & out' & Hrest & ->)].
    + pose proof (encipher_abc _ _ _ _ _ Hp Hy) as Hyabc.
      unfold letters. rewrite !filter_cons_True by done.
      rewrite (enigma_loop_letter _ _ _ y) by done.
      fold (letters rest). by rewrite (IH _ _ _ Hrest).
    + unfold letters. rewrite !filter_cons_False by done. by apply IH.
Qed.

Lemma enigma_loop_no_letters rotor_selection (p : gmap N N) (text : list N) pos :
  Forall (λ c, c ∉ abc) text →
  enigma_loop rotor_selection p text pos [] = Ok (pos, text).
Proof.
  induction 1 as [|c rest Hc _ IH]; [done|].
  by rewrite enigma_loop_other, IH.
Qed.

(** ** More on [enigma] *)

(** Once the validator has accepted, [enigma] is the loop on the
    upper-cased text from the start offsets. *)
Lemma enigma_accepted text rotpos rotsel plugb v :
  _validator rotpos rotsel (upper plugb) = Ok v →
  ∃ p, _plugboard (upper plugb) = Ok p ∧ plugboard_ok p ∧
       positions_in_range rotpos ∧
       v = (rotpos, rotsel, p) ∧
       enigma text rotpos rotsel plugb
       = ('(_, out) ← enigma_loop rotsel p (upper text)
                        (start_offsets rotpos) [];
          Ok out) ∧
       enigma_final_offsets text rotpos rotsel plugb
       = ('(pos, _) ← enigma_loop rotsel p (upper text)
                        (start_offsets rotpos) [];
          Ok pos).
Proof.
  intros Hv.
  pose proof (proj1 (validator_Ok _ _ _ _) Hv) as (_ & Hpos & p & Hpb & ->).
  exists p. split; [done|]. split; [by eapply plugboard_result_ok|].
  split; [done|]. split; [done|].
  unfold enigma, enigma_final_offsets. by rewrite Hv.
Qed.

(** A run of [enigma] that returns, read back as a run of the loop. *)
Lemma enigma_Ok_loop text rotpos rotsel plugb v out :
  _validator rotpos rotsel (upper plugb) = Ok v →
  enigma text rotpos rotsel plugb = Ok out →
  ∃ p pos',
    plugboard_ok p ∧ v = (rotpos, rotsel, p) ∧
    enigma_loop rotsel p (upper text) (start_offsets rotpos) []
    = Ok (pos', out) ∧
    enigma_final_offsets text rotpos rotsel plugb = Ok pos'.
Proof.
  intros Hv Hrun.
  destruct (enigma_accepted text _ _ _ _ Hv)
    as (p & _ & Hp & _ & -> & Henigma & Hfinal).
  rewrite Henigma in Hrun. rewrite Hfinal.
  destruct (enigma_loop rotsel p (upper text) (start_offsets rotpos) [])
    as [[pos' out']|e] eqn:Hloop; [|done].
  rewrite bind_Ok_l in Hrun. cbv beta iota in Hrun. injection Hrun as ->.
  by exists p, pos'.
Qed.

(** X4.  No letter is ever enciphered to itself: when the validator
    accepts the configuration and the three wirings are reorderings of
    the alphabet, the output differs from the upper-cased text at every
    index where that text has an alphabet letter. *)
Theorem enigma_never_same_letter text rotpos rotsel plugb v out :
  _validator rotpos rotsel (upper plugb) = Ok v → wirings rotsel →
  enigma text rotpos rotsel plugb = Ok out →
  ∀ i c, upper text !! i = Some c → c ∈ abc →
         ∃ d, out !! i = Some d ∧ d ∈ abc ∧ d ≠ c.
Proof.
  intros Hv Hw Hrun i c Hi Hc.
  destruct (enigma_Ok_loop _ _ _ _ _ _ Hv Hrun) as (p & pos' & Hp & -> & Hloop & _).
  pose proof (proj1 (validator_Ok _ _ _ _) Hv) as (_ & Hpos & _).
  apply start_offsets_ok in Hpos.
  destruct (enigma_loop_layout _ _ _ Hp _ _ _ Hloop) as [Hrel _].
  pose proof (enigma_loop_no_fixed_point _ _ _ Hw Hp _ _ _ Hpos Hloop) as Hne.
  pose proof (enciphered_lookup _ _ i c Hrel Hi) as Hd.
  rewrite (proj2 (str_in_true _ _) Hc) in Hd. destruct Hd as (d & Hd & Hdabc).
  exists d. split; [done|]. split; [done|].
  by apply (Forall2_lookup_lr _ _ _ i c d Hne).
Qed.

Lemma enigma_never_same_letter_witness :
  ∃ out d,
    enigma (lit "LLLL") (1, 1, 1) (rotor1, rotor2, rotor3) [] = Ok out ∧
    out !! 2%nat = Some d ∧ d ≠ chr "L".
Proof.
  assert (∃ out, enigma (lit "LLLL") (1, 1, 1) (rotor1, rotor2, rotor3) []
                 = Ok out) as [out Hout]
    by (eexists; vm_compute; reflexivity).
  destruct (enigma_never_same_letter (lit "LLLL") (1, 1, 1)
              (rotor1, rotor2, rotor3) []
              ((1, 1, 1), (rotor1, rotor2, rotor3), ∅) out)
    with (i := 2%nat) (c := chr "L") as (d & Hd & _ & Hne).
  - vm_compute. reflexivity.
  - apply (bool_decide_unpack _). vm_compute. exact I.
  - exact Hout.
  - vm_compute. reflexivity.
  - apply (bool_decide_unpack _). vm_compute. exact I.
  - exists out, d. split; [exact Hout|]. split; [exact Hd|exact Hne].
Defined.

(** X5.  At fixed offsets the letter transform is a permutation of the
    alphabet that pairs the letters off: with wirings that are
    reorderings of the alphabet and a plugboard that [_plugboard] built,
    every alphabet letter is sent to a different alphabet letter, which
    is sent back to it, and two different letters are never sent to the
    same letter. *)
Theorem encipher_permutation rotor_selection (spec : list N) (p : gmap N N) pos :
  wirings rotor_selection → _plugboard spec = Ok p → offsets_ok pos →
  (∀ x, x ∈ abc →
        ∃ y, encipher rotor_selection p pos x = Ok y ∧ y ∈ abc ∧ y ≠ x ∧
             encipher rotor_selection p pos y = Ok x) ∧
  (∀ x x' y, x ∈ abc → x' ∈ abc →
             encipher rotor_selection p pos x = Ok y →
             encipher rotor_selection p pos x' = Ok y → x = x').
Proof.
  intros Hw Hp%plugboard_result_ok Hpos. split.
  - intros x Hx.
    destruct (encipher_involutive _ _ _ x Hw Hp Hpos Hx) as (y & Hy & Hyabc & Hback).
    exists y. split; [done|]. split; [done|]. split; [|done].
    by eapply encipher_no_fixed_point.
  - intros x x' y Hx Hx' Hy Hy'.
    destruct (encipher_involutive _ _ _ x Hw Hp Hpos Hx) as (y1 & Hy1 & _ & Hback).
    destruct (encipher_involutive _ _ _ x' Hw Hp Hpos Hx') as (y2 & Hy2 & _ & Hback').
    congruence.
Qed.

Lemma encipher_permutation_witness :
  ∃ y, encipher (rotor1, rotor2, rotor3) (make_pairs (lit "PICTURES") ∅)
         (25, 25, 25) (chr "Q") = Ok y ∧
       y ≠ chr "Q" ∧
       encipher (rotor1, rotor2, rotor3) (make_pairs (lit "PICTURES") ∅)
         (25, 25, 25) y = Ok (chr "Q").
Proof.
  destruct (proj1 (encipher_permutation (rotor1, rotor2, rotor3)
                     (lit "PICTURES") (make_pairs (lit "PICTURES") ∅)
                     (25, 25, 25)
                     ltac:(apply (bool_decide_unpack _); vm_compute; exact I)
                     ltac:(vm_compute; reflexivity)
                     ltac:(vm_compute; intuition discriminate))
              (chr "Q")
              ltac:(apply (bool_decide_unpack _); vm_compute; exact I))
    as (y & Hy & _ & Hne & Hback).
  exists y. split; [exact Hy|]. split; [exact Hne|exact Hback].
Defined.

Lemma upper_app (s t : list N) : upper (s ++ t) = upper s ++ upper t.
Proof. unfold upper. apply bind_app. Qed.

Lemma enigma_loop_offsets_ok rotor_selection (p : gmap N N) text pos pos' out :
  plugboard_ok p → offsets_ok pos →
  enigma_loop rotor_selection p text pos [] = Ok (pos', out) →
  offsets_ok pos'.
Proof.
  intros Hp Hpos Hrun.
  destruct (enigma_loop_layout _ _ _ Hp _ _ _ Hrun) as [_ ->].
  by apply iter_advance_ok.
Qed.

(** X6.  A text can be enciphered in parts.  When [enigma] returns [out1]
    for a first part and ends it at the offsets (o1, o2, o3), then
    [enigma] on the first part followed by a second part is [out1]
    followed by what [enigma] gives for the second part from the dial
    positions (o1 + 1, o2 + 1, o3 + 1), and fails with the same error
    when that call fails. *)
Theorem enigma_app t1 t2 rotpos rotsel plugb v out1 o1 o2 o3 :
  _validator rotpos rotsel (upper plugb) = Ok v →
  enigma t1 rotpos rotsel plugb = Ok out1 →
  enigma_final_offsets t1 rotpos rotsel plugb = Ok (o1, o2, o3) →
  enigma (t1 ++ t2) rotpos rotsel plugb
  = out2 ← enigma t2 (o1 + 1, o2 + 1, o3 + 1) rotsel plugb; Ok (out1 ++ out2).
Proof.
  intros Hv Hrun Hfinal.
  destruct (enigma_Ok_loop _ _ _ _ _ _ Hv Hrun)
    as (p & pos' & Hp & -> & Hloop & Hfinal').
  rewrite Hfinal' in Hfinal. injection Hfinal as ->.
  pose proof (proj1 (validator_Ok _ _ _ _) Hv)
    as (Hsel & Hpos & p' & Hpb & [= <-]).
  pose proof (enigma_loop_offsets_ok _ _ _ _ _ _ Hp
                (start_offsets_ok _ Hpos) Hloop) as (O1 & O2 & O3).
  unfold offset_ok in O1, O2, O3. rewrite len_abc in O1, O2, O3.
  assert (_validator (o1 + 1, o2 + 1, o3 + 1) rotsel (upper plugb)
          = Ok ((o1 + 1, o2 + 1, o3 + 1), rotsel, p)) as Hv2.
  { apply validator_Ok. split; [done|]. split.
    - unfold positions_in_range, in_range. lia.
    - by exists p. }
  destruct (enigma_accepted (t1 ++ t2) _ _ _ _ Hv) as (? & _ & _ & _ & Heq & -> & _).
  injection Heq as <-.
  destruct (enigma_accepted t2 _ _ _ _ Hv2) as (? & _ & _ & _ & Heq & -> & _).
  injection Heq as <-.
  rewrite upper_app, enigma_loop_app, Hloop, bind_Ok_l. cbv beta iota.
  rewrite enigma_loop_acc. unfold start_offsets. rewrite !Z.add_simpl_r.
  by destruct (enigma_loop rotsel p (upper t2) (o1, o2, o3) []) as [[pos2 out2]|e].
Qed.

Lemma enigma_app_witness :
  enigma (lit "Hello" ++ lit ", World") (24, 26, 1) (rotor1, rotor2, rotor3) []
  = out2 ← enigma (lit ", World") (2 + 1, 0 + 1, 1 + 1)
             (rotor1, rotor2, rotor3) [];
    Ok (lit "LJBSY" ++ out2).
Proof.
  apply (enigma_app (lit "Hello") (lit ", World") (24, 26, 1)
           (rotor1, rotor2, rotor3) []
           ((24, 26, 1), (rotor1, rotor2, rotor3), ∅)).
  - vm_compute. reflexivity.
  - vm_compute. reflexivity.
  - vm_compute. reflexivity.
Defined.

Lemma letters_upper_fixed (text : list N) : upper (letters text) = letters text.
Proof.
  apply upper_of_fixed, Forall_forall. intros c Hc.
  apply abc_upper_fixed. unfold letters in Hc.
  by apply list_elem_of_filter in Hc as [Hc _].
Qed.

(** X7.  Characters that are not alphabet letters are transparent: when
    [enigma] returns [out] for a text, it returns the alphabet letters of
    [out], in order, for the text stripped down to the alphabet letters
    of its upper-cased form.  Spaces, digits and punctuation change no
    letter of the result. *)
Theorem enigma_letters_only text rotpos rotsel plugb out :
  enigma text rotpos rotsel plugb = Ok out →
  enigma (letters (upper text)) rotpos rotsel plugb = Ok (letters out).
Proof.
  intros Hrun.
  destruct (_validator rotpos rotsel (upper plugb)) as [v|e] eqn:Hv.
  2:{ unfold enigma in Hrun. by rewrite Hv in Hrun. }
  destruct (enigma_Ok_loop _ _ _ _ _ _ Hv Hrun) as (p & pos' & Hp & -> & Hloop & _).
  destruct (enigma_accepted (letters (upper text)) _ _ _ _ Hv)
    as (? & _ & _ & _ & Heq & -> & _).
  injection Heq as <-.
  rewrite letters_upper_fixed, (enigma_loop_letters _ _ _ Hp _ _ _ Hloop).
  done.
Qed.

Lemma enigma_letters_only_witness :
  enigma (letters (upper (lit "Hello, World! 123"))) (1, 1, 1)
    (rotor1, rotor2, rotor3) []
  = Ok (letters (lit "FGNTZ, QWDBR! 123")).
Proof.
  apply (enigma_letters_only (lit "Hello, World! 123")).
  vm_compute. reflexivity.
Defined.

Lemma counter_bound (pos : Z * Z * Z) :
  offsets_ok pos → 0 ≤ counter pos < 17576.
Proof.
  destruct pos as [[p1 p2] p3]. unfold offsets_ok, offset_ok, counter.
  rewrite len_abc. lia.
Qed.

(** X8.  The offsets have period 26 * 26 * 26 = 17576: from offsets
    within 0..25, [n] steps lead back to the same offsets exactly when
    [n] is a multiple of 17576. *)
Theorem advance_period (pos : Z * Z * Z) (n : nat) :
  offsets_ok pos →
  Nat.iter n advance pos = pos ↔ (17576 | Z.of_nat n).
Proof.
  intros Hpos. pose proof (counter_bound pos Hpos) as Hc. split.
  - intros Hiter. apply (f_equal counter) in Hiter.
    rewrite counter_iter_advance in Hiter by done.
    exists ((counter pos + Z.of_nat n) / 17576).
    pose proof (Z.div_mod (counter pos + Z.of_nat n) 17576). lia.
  - intros [z Hz]. rewrite iter_advance by done.
    rewrite Hz, Z.mod_add, Z.mod_small by lia.
    by apply of_counter_counter.
Qed.

Lemma advance_period_witness :
  Nat.iter (26 * 26 * 26) advance (7, 0, 25) = (7, 0, 25).
Proof.
  apply (proj2 (advance_period (7, 0, 25) (26 * 26 * 26)
                  ltac:(vm_compute; intuition discriminate))).
  exists 1. reflexivity.
Defined.

(** X9.  [enigma] does not see the case of the text, and its output is
    in upper case: it gives the same result for a text and for the
    upper-cased text, and whatever it returns is left unchanged by
    [upper]. *)
Theorem enigma_text_case_insensitive :
  (∀ text rotpos rotsel plugb,
     enigma text rotpos rotsel plugb = enigma (upper text) rotpos rotsel plugb) ∧
  (∀ text rotpos rotsel plugb out,
     enigma text rotpos rotsel plugb = Ok out → upper out = out).
Proof.
  split.
  - intros. unfold enigma. by rewrite upper_idempotent.
  - intros text rotpos rotsel plugb out Hrun.
    destruct (_validator rotpos rotsel (upper plugb)) as [v|e] eqn:Hv.
    2:{ unfold enigma in Hrun. by rewrite Hv in Hrun. }
    destruct (enigma_Ok_loop _ _ _ _ _ _ Hv Hrun) as (p & pos' & Hp & -> & Hloop & _).
    destruct (enigma_loop_layout _ _ _ Hp _ _ _ Hloop) as [Hrel _].
    apply upper_of_fixed. eapply enciphered_upper_fixed; [exact Hrel|].
    apply upper_is_fixed.
Qed.

Lemma enigma_text_case_insensitive_witness :
  upper (lit "FGNTZ, QWDBR! 123") = lit "FGNTZ, QWDBR! 123".
Proof.
  apply (proj2 enigma_text_case_insensitive (lit "Hello, World! 123")
           (1, 1, 1) (rotor1, rotor2, rotor3) []).
  vm_compute. reflexivity.
Defined.

(** X10.  A text without alphabet letters never reaches the rotors: when
    the validator accepts the configuration, whatever strings the three
    wirings are, and the upper-cased text has no alphabet letter,
    [enigma] returns the upper-cased text and the offsets end where they
    started.  The empty text is one such text. *)
Theorem enigma_no_letters text rotpos rotsel plugb v :
  _validator rotpos rotsel (upper plugb) = Ok v →
  Forall (λ c, c ∉ abc) (upper text) →
  enigma text rotpos rotsel plugb = Ok (upper text) ∧
  enigma_final_offsets text rotpos rotsel plugb = Ok (start_offsets rotpos).
Proof.
  intros Hv Hno.
  destruct (enigma_accepted text _ _ _ _ Hv) as (p & _ & _ & _ & _ & -> & ->).
  by rewrite (enigma_loop_no_letters _ _ _ _ Hno).
Qed.

Lemma enigma_no_letters_witness :
  enigma (lit "12:30, 4/5!") (1, 1, 1) (lit "ABC", lit "", lit "?") []
  = Ok (upper (lit "12:30, 4/5!")) ∧
  enigma [] (1, 1, 1) (lit "ABC", lit "", lit "?") [] = Ok (upper []).
Proof.
  split.
  - refine (proj1 (enigma_no_letters (lit "12:30, 4/5!") (1, 1, 1)
                     (lit "ABC", lit "", lit "?") []
                     ((1, 1, 1), (lit "ABC", lit "", lit "?"), ∅) _ _)).
    + vm_compute. reflexivity.
    + apply (bool_decide_unpack _). vm_compute. exact I.
  - refine (proj1 (enigma_no_letters [] (1, 1, 1)
                     (lit "ABC", lit "", lit "?") []
                     ((1, 1, 1), (lit "ABC", lit "", lit "?"), ∅) _ _)).
    + vm_compute. reflexivity.
    + constructor.
Defined.

(** ** The catalog and other wirings *)

Lemma rotor_list_NoDup : NoDup rotor_list.
Proof. apply (bool_decide_unpack _). by vm_compute. Qed.

Lemma catalog_lookup_distinct (i j k : nat) (r1 r2 r3 : list N) :
  rotor_list !! i = Some r1 → rotor_list !! j = Some r2 →
  rotor_list !! k = Some r3 → i ≠ j → i ≠ k → j ≠ k →
  pairwise_distinct (r1, r2, r3) ∧ from_catalog (r1, r2, r3).
Proof.
  intros Hi Hj Hk Hij Hik Hjk. split.
  - unfold pairwise_distinct. repeat constructor.
    + intros [->|[->|H]%elem_of_cons]%elem_of_cons.
      * by apply Hij, (NoDup_lookup _ _ _ _ rotor_list_NoDup Hi Hj).
      * by apply Hik, (NoDup_lookup _ _ _ _ rotor_list_NoDup Hi Hk).
      * inversion H.
    + intros [->|H]%elem_of_cons.
      * by apply Hjk, (NoDup_lookup _ _ _ _ rotor_list_NoDup Hj Hk).
      * inversion H.
    + intros H. inversion H.
  - repeat split; by eapply list_elem_of_lookup_2.
Qed.

(** X11.  Any three entries of [rotor_list] taken at three different
    indices make a selection the machine can use: the three wirings are
    pairwise different and each is a reordering of the alphabet, so the
    validator accepts them with every position triple in 1..26 and every
    well-formed plugboard specification. *)
Theorem catalog_selection (i j k : nat) (r1 r2 r3 : list N) :
  rotor_list !! i = Some r1 → rotor_list !! j = Some r2 →
  rotor_list !! k = Some r3 → i ≠ j → i ≠ k → j ≠ k →
  pairwise_distinct (r1, r2, r3) ∧ wirings (r1, r2, r3) ∧
  ∀ rotpos pb,
    positions_in_range rotpos → well_formed_spec pb →
    _validator rotpos (r1, r2, r3) pb
    = Ok (rotpos, (r1, r2, r3), make_pairs pb ∅).
Proof.
  intros Hi Hj Hk Hij Hik Hjk.
  destruct (catalog_lookup_distinct i j k r1 r2 r3) as [Hsel Hcat]; [done..|].
  split; [done|]. split; [by apply from_catalog_wirings|].
  intros rotpos pb Hpos Hwf. apply validator_Ok.
  split; [done|]. split; [done|]. eexists. split; [|done]. by apply plugboard_Ok.
Qed.

Lemma catalog_selection_witness :
  _validator (26, 1, 13) (rotor9, rotor4, rotor6) (lit "ENIGMA")
  = Ok ((26, 1, 13), (rotor9, rotor4, rotor6), make_pairs (lit "ENIGMA") ∅).
Proof.
  refine (proj2 (proj2 (catalog_selection 8 3 5 rotor9 rotor4 rotor6
                          eq_refl eq_refl eq_refl _ _ _)) _ _ _ _).
  - lia.
  - lia.
  - lia.
  - vm_compute. intuition discriminate.
  - apply (bool_decide_unpack _). vm_compute. exact I.
Defined.

(** X12.  Whatever strings the three wirings are, a string that [enigma]
    returns has the layout of the upper-cased text: its length, its
    characters that are not alphabet letters unchanged at their indices,
    and an alphabet letter at every index where it has one.  The offsets
    the run ends with are within 0..25, and they are the start offsets
    advanced once per alphabet letter. *)
Theorem enigma_layout_any_wirings text rotpos rotsel plugb out :
  enigma text rotpos rotsel plugb = Ok out →
  length out = length (upper text) ∧
  (∀ i c, upper text !! i = Some c → c ∉ abc → out !! i = Some c) ∧
  (∀ i c, upper text !! i = Some c → c ∈ abc →
          ∃ d, out !! i = Some d ∧ d ∈ abc) ∧
  ∃ pos', enigma_final_offsets text rotpos rotsel plugb = Ok pos' ∧
          offsets_ok pos' ∧
          pos' = Nat.iter (length (letters (upper text))) advance
                   (start_offsets rotpos).
Proof.
  intros Hrun.
  destruct (_validator rotpos rotsel (upper plugb)) as [v|e] eqn:Hv.
  2:{ unfold enigma in Hrun. by rewrite Hv in Hrun. }
  destruct (enigma_Ok_loop _ _ _ _ _ _ Hv Hrun)
    as (p & pos' & Hp & -> & Hloop & Hfinal).
  pose proof (proj1 (validator_Ok _ _ _ _) Hv) as (_ & Hpos & _).
  destruct (enigma_loop_layout _ _ _ Hp _ _ _ Hloop) as [Hrel Hiter].
  split; [by apply enciphered_length|]. split; [|split].
  - intros i c Hi Hnot. pose proof (enciphered_lookup _ _ i c Hrel Hi) as H.
    by rewrite (proj2 (str_in_false _ _) Hnot) in H.
  - intros i c Hi Hin. pose proof (enciphered_lookup _ _ i c Hrel Hi) as H.
    by rewrite (proj2 (str_in_true _ _) Hin) in H.
  - exists pos'. split; [done|]. split; [|done].
    eapply enigma_loop_offsets_ok; [done| |exact Hloop].
    by apply start_offsets_ok.
Qed.

Lemma enigma_layout_any_wirings_witness :
  length (lit "ZY X") = length (upper (lit "ab c")).
Proof.
  apply (enigma_layout_any_wirings (lit "ab c") (1, 1, 1)
           (abc, lit "ZYXWVUTSRQPONMLKJIHGFEDCBA",
            lit "ANANANANANANANANANANANANAN") []).
  vm_compute. reflexivity.
Defined.

(** ** Rotors that are not in the catalog *)

(** X13.  For any wiring that is a reordering of the alphabet, at every
    offset 0..25, the way back through the rotor undoes the way in and
    the way in undoes the way back; neither raises, although the way back
    indexes the alphabet with a possibly negative number. *)
Theorem rotor_round_trip (rotor : list N) (rotorpos : Z) (c : N) :
  wiring rotor → offset_ok rotorpos → c ∈ abc →
  (∃ d, rotor_forward rotor rotorpos c = Ok d ∧ d ∈ abc ∧
        rotor_backward rotor rotorpos d = Ok c) ∧
  (∃ d, rotor_backward rotor rotorpos c = Ok d ∧ d ∈ abc ∧
        rotor_forward rotor rotorpos d = Ok c).
Proof.
  intros Hw Hoff Hc. split.
  - by apply rotor_forward_backward.
  - by apply rotor_backward_forward.
Qed.

Lemma rotor_round_trip_witness :
  ∃ d, rotor_backward rotor5 25 (chr "S") = Ok d ∧
       rotor_forward rotor5 25 d = Ok (chr "S").
Proof.
  destruct (proj2 (rotor_round_trip rotor5 25 (chr "S")
                     ltac:(apply (bool_decide_unpack _); vm_compute; exact I)
                     ltac:(vm_compute; intuition discriminate)
                     ltac:(apply (bool_decide_unpack _); vm_compute; exact I)))
    as (d & Hd & _ & Hback).
  exists d. split; [exact Hd|exact Hback].
Defined.

(** X14.  Reciprocity does not need the catalog: with any three
    different wirings that are reorderings of the alphabet, any position
    triple and plugboard specification the validator accepts, and any
    text, [enigma] returns a string, and [enigma] on that string with the
    same configuration returns the upper-cased text. *)
Theorem enigma_reciprocal_any_wirings text rotpos rotsel plugb v :
  _validator rotpos rotsel (upper plugb) = Ok v → wirings rotsel →
  ∃ out, enigma text rotpos rotsel plugb = Ok out ∧
         enigma out rotpos rotsel plugb = Ok (upper text).
Proof.
  intros Hv Hw.
  destruct (enigma_validated text rotpos rotsel plugb v Hv Hw)
    as (out & Hrun & _ & _ & Hback).
  by exists out.
Qed.

Lemma enigma_reciprocal_any_wirings_witness :
  ∃ out,
    enigma (lit "Custom rotors") (1, 2, 3)
      (abc, lit "ZYXWVUTSRQPONMLKJIHGFEDCBA", lit "BCDEFGHIJKLMNOPQRSTUVWXYZA")
      (lit "qz") = Ok out ∧
    enigma out (1, 2, 3)
      (abc, lit "ZYXWVUTSRQPONMLKJIHGFEDCBA", lit "BCDEFGHIJKLMNOPQRSTUVWXYZA")
      (lit "qz") = Ok (upper (lit "Custom rotors")).
Proof.
  apply (enigma_reciprocal_any_wirings (lit "Custom rotors") (1, 2, 3)
           (abc, lit "ZYXWVUTSRQPONMLKJIHGFEDCBA",
            lit "BCDEFGHIJKLMNOPQRSTUVWXYZA") (lit "qz")
           ((1, 2, 3),
            (abc, lit "ZYXWVUTSRQPONMLKJIHGFEDCBA",
             lit "BCDEFGHIJKLMNOPQRSTUVWXYZA"),
            make_pairs (lit "QZ") ∅)).
  - vm_compute. reflexivity.
  - apply (bool_decide_unpack _). vm_compute. exact I.
Defined.

(** ** The loop under [__main__] *)

Lemma select_rotor_in_range (n : Z) :
  1 ≤ n ≤ 9 →
  ∃ r, rotor_list !! Z.to_nat (n - 1) = Some r ∧ select_rotor n = Ok r.
Proof.
  intros Hn. destruct (lookup_lt_is_Some_2 rotor_list (Z.to_nat (n - 1)))
    as [r Hr].
  { change (length rotor_list) with 9%nat. lia. }
  exists r. split; [done|]. unfold select_rotor, list_getitem.
  destruct (Z.ltb_spec (n - 1) 0); [lia|].
  destruct (Z.ltb_spec (n - 1) 0); [lia|]. by rewrite Hr.
Qed.

(** X15.  How a number picks a rotor in the driver: 1..9 pick the entries
    of [rotor_list] in order; 0 and the negative numbers down to -8 count
    from the end of the list, so 0 picks the ninth rotor like 9 does and
    [n] picks what [n + 9] picks; every other number raises
    [IndexError]. *)
Theorem select_rotor_cases (n : Z) :
  (1 ≤ n ≤ 9 →
   ∃ r, rotor_list !! Z.to_nat (n - 1) = Some r ∧ select_rotor n = Ok r) ∧
  (-8 ≤ n ≤ 0 → select_rotor n = select_rotor (n + 9)) ∧
  (n < -8 ∨ 9 < n →
   select_rotor n
   = Raise (mk_exn IndexError (lit "list index out of range"))).
Proof.
  split; [apply select_rotor_in_range|]. split.
  - intros Hn. unfold select_rotor, list_getitem.
    change (length rotor_list) with 9%nat.
    destruct (Z.ltb_spec (n - 1) 0); [|lia].
    destruct (Z.ltb_spec (n - 1 + Z.of_nat 9) 0); [lia|].
    destruct (Z.ltb_spec (n + 9 - 1) 0); [lia|].
    destruct (Z.ltb_spec (n + 9 - 1) 0); [lia|].
    by replace (n - 1 + Z.of_nat 9) with (n + 9 - 1) by lia.
  - intros Hn. unfold select_rotor, list_getitem.
    change (length rotor_list) with 9%nat.
    destruct (Z.ltb_spec (n - 1) 0).
    + destruct (Z.ltb_spec (n - 1 + Z.of_nat 9) 0); [done|lia].
    + destruct (Z.ltb_spec (n - 1) 0); [lia|].
      rewrite lookup_ge_None_2; [done|].
      change (length rotor_list) with 9%nat. lia.
Qed.

Lemma select_rotor_cases_witness :
  select_rotor 0 = select_rotor (0 + 9) ∧
  select_rotor 10 = Raise (mk_exn IndexError (lit "list index out of range")).
Proof.
  split.
  - apply (proj1 (proj2 (select_rotor_cases 0))). lia.
  - apply (proj2 (proj2 (select_rotor_cases 10))). lia.
Defined.




(** X17.  Two numbers that pick the same rotor end the round before
    anything is printed, with the duplicate-rotor error, whatever the
    positions are.  Since 0 picks the ninth rotor, the numbers 0 and 9 on
    one line are such a pair. *)
Theorem driver_round_same_rotor (message : list N) (rotor_pos : Z * Z * Z)
    (n1 n2 n3 : Z) (r1 r2 r3 : list N) :
  select_rotor n1 = Ok r1 → select_rotor n2 = Ok r2 → select_rotor n3 = Ok r3 →
  r1 = r2 ∨ r1 = r3 ∨ r2 = r3 →
  driver_round message rotor_pos (n1, n2, n3)
  = ([], Some (DuplicateRotor (unique_rotors (r1, r2, r3)))) ∧
  (unique_rotors (r1, r2, r3) < 3)%nat.
Proof.
  intros Hs1 Hs2 Hs3 Hsame.
  assert (unique_rotors (r1, r2, r3) < 3)%nat as Hlt.
  { pose proof (unique_rotors_le (r1, r2, r3)) as Hle.
    destruct (decide (unique_rotors (r1, r2, r3) = 3%nat)) as [Heq|]; [|lia].
    apply unique_rotors_3 in Heq. unfold pairwise_distinct in Heq.
    apply NoDup_cons in Heq as [Hn1 Heq]. apply NoDup_cons in Heq as [Hn2 _].
    exfalso. destruct Hsame as [-> | [-> | ->]].
    - apply Hn1. left.
    - apply Hn1. right. left.
    - apply Hn2. left. }
  split; [|done]. unfold driver_round.
  rewrite Hs1, bind_Ok_l, Hs2, bind_Ok_l, Hs3, bind_Ok_l.
  unfold enigma. rewrite validator_cases, decide_True by done. done.
Qed.

Lemma driver_round_same_rotor_witness :
  driver_round (lit "Hello") (1, 1, 1) (0, 9, 1)
  = ([], Some (DuplicateRotor (unique_rotors (rotor9, rotor9, rotor1)))).
Proof.
  refine (proj1 (driver_round_same_rotor (lit "Hello") (1, 1, 1) 0 9 1
                   rotor9 rotor9 rotor1 _ _ _ _)).
  - vm_compute. reflexivity.
  - vm_compute. reflexivity.
  - vm_compute. reflexivity.
  - left. reflexivity.
Defined.
